(** * Speed Snooker: the frame / shot-clock controller

    A shallow embedding of [FrameController] (the timer and state logic of
    the Speed Snooker UI, [ALPHA_TEST.py]; the same class is repeated in
    [BETA_TEST.py], [pi_test.py] and [pi_test_2.py]) and the properties of
    its state machine.

    Modelling choices.
    - Python integers are [Z].
    - Python floats ([time.monotonic()] readings and [_accum]) are exact
      rationals [Q]: the arithmetic done on them is one subtraction, one
      addition and the removal of the integer part.
    - [time.monotonic()] is an effect; every method that reads the clock
      takes the reading as its argument [now].
    - Methods mutate [self]; here they map a state to the next state, and
      [shot_changed] returns its result together with the next state.

    Around the controller, the same file's [fmt_time], menu layout, event
    handler, main-loop timer pass, the values [draw_frame] renders and the
    sample loop of [make_tone_sound] are embedded as well, and the choice of
    the fob's input device from [pi_test_2.py]; pygame itself (surfaces,
    fonts, the mixer) is not.  An exception is a [Raise] result. *)

From Stdlib Require Import ZArith QArith Bool List Lia Lqa.
From Stdlib Require Import String Ascii Decimal DecimalString DecimalN.
Import ListNotations.

Open Scope Z_scope.

(** ** Configuration (timer rules) *)

Definition FINAL_PHASE_SECONDS : Z := 5 * 60.
Definition SHOT_CLOCK_NORMAL_SECONDS : Z := 15.
Definition SHOT_CLOCK_FINAL_SECONDS : Z := 10.

(** Python's [int(x)] on a float: truncation toward zero. *)
Definition int (x : Q) : Z := Z.quot (Qnum x) (Z.pos (Qden x)).

(** ** The controller *)

Module FrameController.

Record t : Type := mk
  { frame_remaining : Z;
    shot_remaining : Z;
    running : bool;
    _last_tick : Q;
    _accum : Q;
    _prev_shot_remaining : Z }.

(** Attribute assignments, [self.field = v]. *)

Definition set_frame_remaining (v : Z) (self : t) : t :=
  mk v (shot_remaining self) (running self) (_last_tick self) (_accum self)
     (_prev_shot_remaining self).

Definition set_shot_remaining (v : Z) (self : t) : t :=
  mk (frame_remaining self) v (running self) (_last_tick self) (_accum self)
     (_prev_shot_remaining self).

Definition set_running (v : bool) (self : t) : t :=
  mk (frame_remaining self) (shot_remaining self) v (_last_tick self)
     (_accum self) (_prev_shot_remaining self).

Definition set_last_tick (v : Q) (self : t) : t :=
  mk (frame_remaining self) (shot_remaining self) (running self) v
     (_accum self) (_prev_shot_remaining self).

Definition set_accum (v : Q) (self : t) : t :=
  mk (frame_remaining self) (shot_remaining self) (running self)
     (_last_tick self) v (_prev_shot_remaining self).

Definition set_prev_shot_remaining (v : Z) (self : t) : t :=
  mk (frame_remaining self) (shot_remaining self) (running self)
     (_last_tick self) (_accum self) v.

(** [FrameController(frame_total_seconds)]; [now] is the clock reading taken
    by the constructor. *)
Definition __init__ (frame_total_seconds : Z) (now : Q) : t :=
  {| frame_remaining := frame_total_seconds;
     shot_remaining := 0;
     running := false;
     _last_tick := now;
     _accum := 0%Q;
     _prev_shot_remaining := 0 |}.

Definition _current_shot_length (self : t) : Z :=
  if frame_remaining self <=? FINAL_PHASE_SECONDS
  then SHOT_CLOCK_FINAL_SECONDS
  else SHOT_CLOCK_NORMAL_SECONDS.

Definition toggle_run (now : Q) (self : t) : t :=
  if frame_remaining self <=? 0 then
    (* frame is over: refuse to start *)
    let self := set_running false self in
    let self := set_shot_remaining 0 self in
    let self := set_accum 0%Q self in
    set_prev_shot_remaining 0 self
  else if running self then
    (* currently running: pause and reset the shot clock *)
    let self := set_running false self in
    let self := set_shot_remaining 0 self in
    let self := set_accum 0%Q self in
    set_prev_shot_remaining 0 self
  else
    (* start a new shot run *)
    let self := set_running true self in
    let self := set_shot_remaining (_current_shot_length self) self in
    let self := set_prev_shot_remaining (shot_remaining self) self in
    let self := set_last_tick now self in
    set_accum 0%Q self.

Definition update (now : Q) (self : t) : t :=
  let dt := (now - _last_tick self)%Q in
  let self := set_last_tick now self in
  if negb (running self) then self
  else
    let self := set_accum (_accum self + dt)%Q self in
    let dec := int (_accum self) in
    if dec <=? 0 then self
    else
      let self := set_accum (_accum self - inject_Z dec)%Q self in
      let self := set_frame_remaining (Z.max 0 (frame_remaining self - dec)) self in
      let self := set_shot_remaining (Z.max 0 (shot_remaining self - dec)) self in
      let self :=
        if (frame_remaining self <=? FINAL_PHASE_SECONDS)
           && (SHOT_CLOCK_FINAL_SECONDS <? shot_remaining self)
        then set_shot_remaining SHOT_CLOCK_FINAL_SECONDS self
        else self in
      if (frame_remaining self =? 0) || (shot_remaining self =? 0)
      then set_accum 0%Q (set_running false self)
      else self.

(** [shot_changed] returns [Some (prev, cur)] or [None], and the state it
    leaves behind. *)
Definition shot_changed (self : t) : option (Z * Z) * t :=
  let cur := shot_remaining self in
  let prev := _prev_shot_remaining self in
  if negb (cur =? prev)
  then (Some (prev, cur), set_prev_shot_remaining cur self)
  else (None, self).

End FrameController.

Import FrameController.

(** ** Calls and runs

    The UI drives one controller through [toggle_run] (key handler) and,
    once per rendered frame, [update] followed by [shot_changed]. *)

Inductive call : Type :=
| Toggle (now : Q)
| Update (now : Q)
| Poll.

Definition step (c : call) (s : t) : t :=
  match c with
  | Toggle now => toggle_run now s
  | Update now => update now s
  | Poll => snd (shot_changed s)
  end.

Definition run (cs : list call) (s : t) : t :=
  fold_left (fun s c => step c s) cs s.

(** States the controller can be in: built by the constructor, then any
    calls, with any clock readings. *)
Inductive reachable : t -> Prop :=
| reach_init (D : Z) (now : Q) : reachable (__init__ D now)
| reach_step (c : call) (s : t) : reachable s -> reachable (step c s).

(** Clock readings of a call sequence never go backwards, starting at
    [t0]. *)
Fixpoint nondecreasing (t0 : Q) (cs : list call) : bool :=
  match cs with
  | [] => true
  | Toggle now :: cs' | Update now :: cs' =>
      Qle_bool t0 now && nondecreasing now cs'
  | Poll :: cs' => nondecreasing t0 cs'
  end.

(** A call sequence without [toggle_run]. *)
Definition no_toggle (cs : list call) : bool :=
  forallb (fun c => match c with Toggle _ => false | _ => true end) cs.

(** The whole-second decrement [update now] takes out of state [s]. *)
Definition dec_of (now : Q) (s : t) : Z :=
  int (_accum s + (now - _last_tick s))%Q.

(** The clocks keep their ranges, a running shot has time left on both
    clocks, and in the final phase the shot clock is at most 10 s. *)
Record invariant (s : t) : Prop :=
  { inv_accum : (_accum s < 1)%Q;
    inv_shot_nonneg : 0 <= shot_remaining s;
    inv_shot_max : shot_remaining s <= SHOT_CLOCK_NORMAL_SECONDS;
    inv_final : frame_remaining s <= FINAL_PHASE_SECONDS ->
                shot_remaining s <= SHOT_CLOCK_FINAL_SECONDS;
    inv_running : running s = true ->
                  0 < frame_remaining s /\ 0 < shot_remaining s;
    inv_paused : running s = false ->
                 shot_remaining s = 0 \/ frame_remaining s = 0 }.

(** The results of the [shot_changed] calls of a call sequence, in order. *)
Fixpoint poll_results (cs : list call) (s : t) : list (option (Z * Z)) :=
  match cs with
  | [] => []
  | Poll :: cs' => fst (shot_changed s) :: poll_results cs' (step Poll s)
  | c :: cs' => poll_results cs' (step c s)
  end.

(** [n] shot runs of [len] seconds each, the first started at [t0]: a start
    and one update [len] seconds later. *)
Fixpoint shots (n : nat) (t0 len : Z) : list call :=
  match n with
  | O => []
  | S n' =>
      Toggle (inject_Z t0) :: Update (inject_Z (t0 + len))
        :: shots n' (t0 + len) len
  end.

(** A 5:30 frame (the shortest menu option): a shot stopped by hand after
    five seconds, two 15 s shots, twenty-nine 10 s shots, and a last shot
    started with five seconds of frame left. *)
Definition frame_530 : list call :=
  [Toggle 0; Update 5; Toggle 5] ++ shots 2 5 15 ++ shots 29 35 10
    ++ [Toggle 325; Update 330].

(** ** Formatting *)

(** Python's [str(n)] for an int [n] (the [d] presentation type). *)
Definition str (n : Z) : string := NilZero.string_of_int (Z.to_int n).

(** The format specification [02d]: decimal, zero-padded to width 2. *)
Definition format_02d (n : Z) : string :=
  let s := str n in
  if (String.length s <? 2)%nat then String "0" s else s.

(** [fmt_time]: seconds as [MM:SS]; [//] and [%] are floor division and
    modulo. *)
Definition fmt_time (total_seconds : Z) : string :=
  let total_seconds := Z.max 0 total_seconds in
  let m := total_seconds / 60 in
  let s := total_seconds mod 60 in
  (format_02d m ++ ":" ++ format_02d s)%string.

(** The decimal digit character of [d], and the two-digit numeral of [k]. *)
Definition digit (d : Z) : ascii := ascii_of_nat (48 + Z.to_nat d).

Definition two_digits (k : Z) : string :=
  String (digit (k / 10)) (String (digit (k mod 10)) EmptyString).

(** The number a string of decimal digits denotes. *)
Definition value (s : string) : option N :=
  option_map N.of_uint (NilZero.uint_of_string s).

Fixpoint no_colon (s : string) : bool :=
  match s with
  | EmptyString => true
  | String a s' => negb (Ascii.eqb a ":") && no_colon s'
  end.

(** ** The menu and the screens *)

Definition RESOLUTION : Z * Z := (1920, 1080).

(** Menu durations: label and seconds. *)
Definition GAME_OPTIONS : list (string * Z) :=
  [("30 MINUTES"%string, 30 * 60);
   ("20 MINUTES"%string, 20 * 60);
   ("15 MINUTES"%string, 15 * 60);
   ("5:30"%string, 5 * 60 + 30)].

(** [pygame.Rect(x, y, w, h)]. *)
Record Rect : Type := mkRect { rect_x : Z; rect_y : Z; rect_w : Z; rect_h : Z }.

Record Button : Type := mkButton { label : string; rect : Rect; seconds : Z }.

(** Python's [l[i]]: a negative index counts from the end, an index out of
    range raises [IndexError] (here [None]). *)
Definition getitem {A : Type} (l : list A) (i : Z) : option A :=
  let n := Z.of_nat (List.length l) in
  let j := if i <? 0 then i + n else i in
  if (j <? 0) || (n <=? j) then None else nth_error l (Z.to_nat j).

(** Python's [enumerate]. *)
Definition enumerate {A : Type} (l : list A) : list (Z * A) :=
  combine (map Z.of_nat (seq 0 (List.length l))) l.

(** [_build_menu_buttons] for a resolution and a list of options; [//] is
    floor division. *)
Definition build_menu_buttons (resolution : Z * Z)
    (options : list (string * Z)) : list Button :=
  let '(w, h) := resolution in
  let btn_w := 650 in
  let btn_h := 130 in
  let gap := 40 in
  let n := Z.of_nat (List.length options) in
  let total_h := btn_h * n + gap * (n - 1) in
  let top := (h - total_h) / 2 + 80 in
  map (fun '(i, (label, seconds)) =>
         let x := (w - btn_w) / 2 in
         let y := top + i * (btn_h + gap) in
         mkButton label (mkRect x y btn_w btn_h) seconds)
      (enumerate options).

Definition _build_menu_buttons : list Button :=
  build_menu_buttons RESOLUTION GAME_OPTIONS.

(** Keys the handler tests for, and any other key code. *)
Inductive key : Type :=
| K_ESCAPE | K_UP | K_w | K_DOWN | K_s | K_RETURN | K_KP_ENTER
| K_BACKSPACE | K_DELETE
| K_other (code : Z).

(** A pygame event: [QUIT], [KEYDOWN] with its key and its [scancode]
    attribute when it has one, or any other event. *)
Inductive event : Type :=
| QUIT
| KEYDOWN (k : key) (scancode : option Z)
| OTHER_EVENT.

Inductive exn : Type :=
| SystemExit | AttributeError | IndexError | ZeroDivisionError | OverflowError.

Inductive result (A : Type) : Type :=
| Ok (a : A)
| Raise (e : exn).

Arguments Ok {A} a.
Arguments Raise {A} e.

(** The two beeps of the main loop. *)
Inductive beep : Type := Short | Long.

(** The beep chosen for a reported change of the shot clock. *)
Definition beep_of (changed : option (Z * Z)) : option beep :=
  match changed with
  | Some (prev, cur) =>
      if (1 <=? cur) && (cur <=? 5) then Some Short
      else if (cur =? 0) && (0 <? prev) then Some Long
      else None
  | None => None
  end.

(** The palette, and a dictionary lookup [d[key]] ([None]: [KeyError]). *)
Definition COLORS : list (string * (Z * Z * Z)) :=
  [("bg"%string, (40, 120, 40));
   ("fg"%string, (240, 240, 240));
   ("accent"%string, (80, 160, 255));
   ("dim"%string, (120, 120, 120));
   ("panel"%string, (16, 16, 16));
   ("shot"%string, (255, 255, 255));
   ("shot_critical"%string, (220, 40, 40))].

Fixpoint dict_get {V : Type} (d : list (string * V)) (key : string)
  : option V :=
  match d with
  | [] => None
  | (k, v) :: d' => if String.eqb k key then Some v else dict_get d' key
  end.

(** What [draw_frame] puts on the screen: the texts and their colours. *)
Record frame_view : Type := mkView
  { timer_text : string;
    timer_color : option (Z * Z * Z);
    shot_text : string;
    shot_color : option (Z * Z * Z);
    status_text : string }.

Module SpeedSnookerUI.

Inductive screen : Type := MENU | FRAME.

(** The fields of the UI that the event handler and the main loop use. *)
Record ui : Type := mk
  { state : screen;
    selected_index : Z;
    frame : option FrameController.t;
    buttons : list Button }.

Definition __init__ : ui :=
  {| state := MENU;
     selected_index := 0;
     frame := None;
     buttons := _build_menu_buttons |}.

(** [now] is the clock reading taken by the controller's constructor. *)
Definition load_frame_paused (now : Q) (seconds : Z) (self : ui) : ui :=
  {| state := FRAME;
     selected_index := selected_index self;
     frame := Some (FrameController.__init__ seconds now);
     buttons := buttons self |}.

Definition back_to_menu (self : ui) : ui :=
  {| state := MENU;
     selected_index := 0;
     frame := None;
     buttons := buttons self |}.

Definition set_selected_index (v : Z) (self : ui) : ui :=
  {| state := state self;
     selected_index := v;
     frame := frame self;
     buttons := buttons self |}.

Definition set_frame (c : FrameController.t) (self : ui) : ui :=
  {| state := state self;
     selected_index := selected_index self;
     frame := Some c;
     buttons := buttons self |}.

(** [x % len(self.buttons)]. *)
Definition mod_len (x : Z) (self : ui) : result Z :=
  let n := Z.of_nat (List.length (buttons self)) in
  if n =? 0 then Raise ZeroDivisionError else Ok (x mod n).

(** [handle_event]; [now] is the clock reading taken if the event makes the
    controller read the clock. *)
Definition handle_event (now : Q) (ev : event) (self : ui) : result ui :=
  match ev with
  | QUIT => Raise SystemExit
  | OTHER_EVENT => Ok self
  | KEYDOWN K_ESCAPE _ => Raise SystemExit
  | KEYDOWN k scancode =>
      match state self with
      | MENU =>
          match k with
          | K_UP | K_w =>
              match mod_len (selected_index self - 1) self with
              | Ok i => Ok (set_selected_index i self)
              | Raise e => Raise e
              end
          | K_DOWN | K_s =>
              match mod_len (selected_index self + 1) self with
              | Ok i => Ok (set_selected_index i self)
              | Raise e => Raise e
              end
          | K_RETURN | K_KP_ENTER =>
              match getitem (buttons self) (selected_index self) with
              | Some b => Ok (load_frame_paused now (seconds b) self)
              | None => Raise IndexError
              end
          | _ => Ok self
          end
      | FRAME =>
          match k with
          | K_BACKSPACE | K_DELETE => Ok (back_to_menu self)
          | _ =>
              match scancode with
              | Some 128 =>
                  (* fob start/stop *)
                  match frame self with
                  | Some c => Ok (set_frame (toggle_run now c) self)
                  | None => Raise AttributeError
                  end
              | _ => Ok self
              end
          end
      end
  end.

(** The event loop of [run]: each event with the clock reading of its
    handling; an exception ends the loop. *)
Fixpoint run_events (evs : list (event * Q)) (self : ui) : result ui :=
  match evs with
  | [] => Ok self
  | (ev, now) :: evs' =>
      match handle_event now ev self with
      | Ok self' => run_events evs' self'
      | Raise e => Raise e
      end
  end.

(** Timer update and audio triggering of one pass of the main loop. *)
Definition run_timers (now : Q) (self : ui) : ui * option beep :=
  match state self, frame self with
  | FRAME, Some c =>
      let c := update now c in
      let '(changed, c) := shot_changed c in
      (set_frame c self, beep_of changed)
  | _, _ => (self, None)
  end.

(** One pass of the main loop of [run], up to the rendering. *)
Definition run_iteration (evs : list (event * Q)) (now : Q) (self : ui)
  : result (ui * option beep) :=
  match run_events evs self with
  | Ok self' => Ok (run_timers now self')
  | Raise e => Raise e
  end.

(** The values [draw_frame] renders. *)
Definition draw_frame (self : ui) : frame_view :=
  let frame_remaining :=
    match frame self with Some c => frame_remaining c | None => 0 end in
  let shot_remaining :=
    match frame self with Some c => shot_remaining c | None => 0 end in
  let running :=
    match frame self with Some c => running c | None => false end in
  let shot_color :=
    if (1 <=? shot_remaining) && (shot_remaining <=? 5)
    then dict_get COLORS "shot_critical"
    else if 0 <? shot_remaining then dict_get COLORS "shot"
         else dict_get COLORS "dim" in
  let status := if running then "RUNNING"%string else "PAUSED"%string in
  {| timer_text := fmt_time frame_remaining;
     timer_color := if 0 <? frame_remaining then dict_get COLORS "accent"
                    else dict_get COLORS "fg";
     shot_text := format_02d shot_remaining;
     shot_color := shot_color;
     status_text :=
       (status
        ++ "   |   FOB START/STOP   |   BACKSPACE MENU   |   ESC QUIT")%string |}.

End SpeedSnookerUI.

(** States of the UI: after the constructor, any events handled without an
    exception and any timer passes. *)
Inductive ui_reachable : SpeedSnookerUI.ui -> Prop :=
| ui_init : ui_reachable SpeedSnookerUI.__init__
| ui_event (now : Q) (ev : event) (u u' : SpeedSnookerUI.ui) :
    ui_reachable u -> SpeedSnookerUI.handle_event now ev u = Ok u' ->
    ui_reachable u'
| ui_timers (now : Q) (u : SpeedSnookerUI.ui) :
    ui_reachable u -> ui_reachable (fst (SpeedSnookerUI.run_timers now u)).

(** What holds of the UI between calls: the menu index is in range, there is
    a controller exactly on the frame screen, the controller's
    [_prev_shot_remaining] is up to date and its frame clock is within the
    longest menu duration. *)
Record ui_invariant (u : SpeedSnookerUI.ui) : Prop :=
  { ui_buttons : SpeedSnookerUI.buttons u = _build_menu_buttons;
    ui_index : 0 <= SpeedSnookerUI.selected_index u < 4;
    ui_menu : SpeedSnookerUI.state u = SpeedSnookerUI.MENU ->
              SpeedSnookerUI.frame u = None;
    ui_frame : SpeedSnookerUI.state u = SpeedSnookerUI.FRAME ->
               SpeedSnookerUI.frame u <> None;
    ui_ctrl : forall c, SpeedSnookerUI.frame u = Some c ->
              reachable c /\ _prev_shot_remaining c = shot_remaining c /\
              0 <= frame_remaining c <= 30 * 60 }.

(** The UI after Up (to the 5:30 option), Enter and the fob, all at clock
    reading 0: the first shot of a 5:30 frame is running. *)
Definition ui_running_530 : SpeedSnookerUI.ui :=
  SpeedSnookerUI.set_frame (toggle_run 0 (__init__ 330 0))
    (SpeedSnookerUI.load_frame_paused 0 330
       (SpeedSnookerUI.set_selected_index 3 SpeedSnookerUI.__init__)).

(** ** The beep buffer *)





Section Tone.

(** [math.sin] and [math.pi]. *)
Variable sin : Q -> Q.
Variable pi : Q.



End Tone.

(** ** Finding the fob ([pi_test_2.py]) *)

Definition FOB_NAME_HINTS : list string :=
  ["bluetooth"%string; "camera"%string; "shutter"%string; "remote"%string].

(** [ecodes.KEY_VOLUMEUP]. *)
Definition KEY_VOLUMEUP : Z := 115.

(** What [evdev] shows of one path of [list_devices()]: whether
    [InputDevice(path)] opens (it raises otherwise), the device's name and
    its [EV_KEY] capabilities. *)
Record input_device : Type := mkDevice
  { dev_path : string;
    dev_opens : bool;
    dev_name : option string;
    dev_keys : list Z }.

(** Python's [h in n] on strings. *)
Fixpoint contains (h n : string) : bool :=
  String.prefix h n
  || match n with
     | EmptyString => false
     | String _ n' => contains h n'
     end.

Section Fob.

(** [str.lower]. *)
Variable lower : string -> string.

(** The devices that open and advertise [KEY_VOLUMEUP], as (path, name). *)
Definition fob_candidates (devices : list input_device)
  : list (string * option string) :=
  flat_map
    (fun dev =>
       if dev_opens dev && existsb (Z.eqb KEY_VOLUMEUP) (dev_keys dev)
       then [(dev_path dev, dev_name dev)]
       else [])
    devices.

(** Whether a device name contains one of the hints, case-insensitively. *)
Definition name_hinted (hints : list string) (name : option string) : bool :=
  let n := lower (match name with Some s => s | None => EmptyString end) in
  existsb (fun h => contains h n) hints.

(** [_find_fob_device_path] with [FOB_DEVICE_PATH = None]: [evdev] says
    whether the import of [evdev] succeeds, [devices] is what it lists. *)
Definition _find_fob_device_path (evdev : bool)
    (devices : list input_device) : option string :=
  if negb evdev then None
  else
    let candidates := fob_candidates devices in
    match candidates with
    | [] => None
    | first :: _ =>
        let hints :=
          map lower
            (filter (fun h => negb (String.eqb h EmptyString))
               FOB_NAME_HINTS) in
        match hints with
        | [] => Some (fst first)
        | _ :: _ =>
            match find (fun c => name_hinted hints (snd c)) candidates with
            | Some c => Some (fst c)
            | None => Some (fst first)
            end
        end
    end.

End Fob.

(** ** Proof tactics *)

(** Turns the boolean tests of the code into propositions. *)
Ltac tests :=
  repeat match goal with
  | H : (_ <=? _) = true |- _ => apply Z.leb_le in H
  | H : (_ <=? _) = false |- _ => apply Z.leb_gt in H
  | H : (_ <? _) = true |- _ => apply Z.ltb_lt in H
  | H : (_ <? _) = false |- _ => apply Z.ltb_ge in H
  | H : (_ =? _) = true |- _ => apply Z.eqb_eq in H
  | H : (_ =? _) = false |- _ => apply Z.eqb_neq in H
  | H : _ && _ = true |- _ => apply andb_true_iff in H; destruct H
  | H : _ && _ = false |- _ => apply andb_false_iff in H
  | H : _ || _ = true |- _ => apply orb_true_iff in H
  | H : _ || _ = false |- _ => apply orb_false_iff in H; destruct H
  | H : negb _ = true |- _ => apply negb_true_iff in H
  | H : negb _ = false |- _ => apply negb_false_iff in H
  end.

(** Replaces the configuration constants by their values. *)
Ltac consts :=
  unfold FINAL_PHASE_SECONDS, SHOT_CLOCK_NORMAL_SECONDS,
    SHOT_CLOCK_FINAL_SECONDS in *;
  change (5 * 60) with 300 in *.

(** ** Arithmetic of [int] *)

Lemma int_le_0_of_lt_1 (q : Q) : (q < 1)%Q -> int q <= 0.
Proof.
  destruct q as [n d]; unfold Qlt, int; simpl; intros H.
  rewrite Z.mul_1_r in H.
  destruct (Z.lt_ge_cases n 0) as [Hn | Hn].
  - assert (Hq : Z.quot n (Z.pos d) <= Z.quot 0 (Z.pos d))
      by (apply Z.quot_le_mono; lia).
    rewrite Z.quot_0_l in Hq by lia. exact Hq.
  - rewrite Z.quot_small by lia. lia.
Qed.

Lemma int_pos_fraction (q : Q) :
  0 < int q -> (0 <= q - inject_Z (int q))%Q /\ (q - inject_Z (int q) < 1)%Q.
Proof.
  destruct q as [n d]; unfold int, Qle, Qlt; simpl; intros H.
  assert (Hn : 0 <= n).
  { destruct (Z.lt_ge_cases n 0) as [Hn | Hn]; [|exact Hn].
    assert (Hq : Z.quot n (Z.pos d) <= Z.quot 0 (Z.pos d))
      by (apply Z.quot_le_mono; lia).
    rewrite Z.quot_0_l in Hq by lia. lia. }
  pose proof (Z.quot_rem' n (Z.pos d)) as E.
  pose proof (Z.rem_bound_pos n (Z.pos d) Hn ltac:(lia)) as B.
  split; nia.
Qed.

Lemma int_zero_delta (a d : Q) : (d <= 0)%Q -> (a < 1)%Q -> int (a + d) <= 0.
Proof.
  intros Hd Ha. apply int_le_0_of_lt_1.
  apply Qle_lt_trans with (y := a); [|exact Ha].
  rewrite <- (Qplus_0_r a) at 2. apply Qplus_le_r. exact Hd.
Qed.

(** ** The three paths through [update] *)

Lemma update_paused (now : Q) (s : t) :
  running s = false -> update now s = set_last_tick now s.
Proof. intros H. unfold update. simpl. rewrite H. reflexivity. Qed.

Lemma update_subsecond (now : Q) (s : t) :
  running s = true -> dec_of now s <= 0 ->
  update now s =
  set_accum (_accum s + (now - _last_tick s))%Q (set_last_tick now s).
Proof.
  intros H Hd. unfold update, dec_of in *. simpl. rewrite H. simpl.
  apply Z.leb_le in Hd. rewrite Hd. reflexivity.
Qed.

Lemma update_tick (now : Q) (s : t) :
  running s = true -> 0 < dec_of now s ->
  let s' := update now s in
  let f := Z.max 0 (frame_remaining s - dec_of now s) in
  let sh := Z.max 0 (shot_remaining s - dec_of now s) in
  let sh' := if (f <=? FINAL_PHASE_SECONDS) && (SHOT_CLOCK_FINAL_SECONDS <? sh)
             then SHOT_CLOCK_FINAL_SECONDS else sh in
  let stop := (f =? 0) || (sh' =? 0) in
  frame_remaining s' = f /\
  shot_remaining s' = sh' /\
  running s' = negb stop /\
  _last_tick s' = now /\
  _prev_shot_remaining s' = _prev_shot_remaining s /\
  _accum s' =
    (if stop then 0%Q
     else _accum s + (now - _last_tick s) - inject_Z (dec_of now s))%Q.
Proof.
  intros H Hd. unfold update, dec_of in *.
  unfold FINAL_PHASE_SECONDS, SHOT_CLOCK_FINAL_SECONDS.
  cbn -[Z.max Z.sub]. rewrite H.
  apply Z.leb_gt in Hd. cbn -[Z.max Z.sub]. rewrite Hd.
  set (d := int _). set (f := Z.max 0 (_ - d)). set (sh := Z.max 0 (_ - d)).
  destruct ((f <=? 300) && (10 <? sh)); cbn -[Z.max Z.sub];
    destruct (f =? 0); destruct (sh =? 0);
    cbn -[Z.max Z.sub]; rewrite ?H; repeat split; reflexivity.
Qed.

(** Case analysis on a call of [update]. *)
Lemma update_cases (now : Q) (s : t) :
  (running s = false /\ update now s = set_last_tick now s) \/
  (running s = true /\ dec_of now s <= 0 /\
   update now s =
   set_accum (_accum s + (now - _last_tick s))%Q (set_last_tick now s)) \/
  (running s = true /\ 0 < dec_of now s).
Proof.
  destruct (running s) eqn:R.
  - right. destruct (Z.le_gt_cases (dec_of now s) 0) as [Hd | Hd].
    + left. auto using update_subsecond.
    + right. auto.
  - left. auto using update_paused.
Qed.

(** ** Invariants of the reachable states *)

Lemma invariant_init (D : Z) (now : Q) : invariant (__init__ D now).
Proof.
  constructor; simpl; consts; try lia; try discriminate; auto.
  reflexivity.
Qed.

Lemma invariant_toggle_run (now : Q) (s : t) :
  invariant s -> invariant (toggle_run now s).
Proof.
  intros [Ha Hn Hm Hf Hr Hp]. unfold toggle_run, _current_shot_length.
  consts.
  destruct (frame_remaining s <=? 0) eqn:E0; [|destruct (running s) eqn:R];
    simpl; [| |destruct (frame_remaining s <=? 300) eqn:E1];
    constructor; simpl; consts; tests; try reflexivity; try discriminate;
    try lia; auto.
Qed.

Lemma invariant_update (now : Q) (s : t) :
  invariant s -> invariant (update now s).
Proof.
  intros [Ha Hn Hm Hf Hr Hp].
  destruct (update_cases now s) as [[R E] | [[R [Hd E]] | [R Hd]]].
  - rewrite E. constructor; simpl; auto.
  - rewrite E. constructor; simpl; auto.
    destruct (Qlt_le_dec (_accum s + (now - _last_tick s)) 1) as [L | L];
      [exact L|].
    exfalso. unfold dec_of in Hd.
    assert (0 < int (_accum s + (now - _last_tick s))); [|lia].
    revert L. generalize (_accum s + (now - _last_tick s))%Q.
    intros [n d]. unfold Qle, int. simpl. intros L.
    apply Z.quot_str_pos; lia.
  - destruct (update_tick now s R Hd) as (Ef & Es & Er & _ & _ & Eacc).
    consts. set (d := dec_of now s) in *.
    constructor; consts; rewrite ?Ef, ?Es, ?Er, ?Eacc.
    + destruct (_ || _); [reflexivity|].
      apply (int_pos_fraction _ Hd).
    + destruct (_ && _); lia.
    + destruct (_ && _); lia.
    + destruct (_ && _) eqn:T; tests; lia.
    + intros Hstop. tests.
      destruct (_ && _) eqn:T; tests; lia.
    + intros Hstop. tests. destruct Hstop; tests; auto.
Qed.

Lemma invariant_shot_changed (s : t) :
  invariant s -> invariant (snd (shot_changed s)).
Proof.
  intros [Ha Hn Hm Hf Hr Hp]. unfold shot_changed.
  destruct (negb _); simpl; constructor; simpl; auto.
Qed.

Lemma invariant_step (c : call) (s : t) : invariant s -> invariant (step c s).
Proof.
  destruct c; simpl;
    auto using invariant_toggle_run, invariant_update, invariant_shot_changed.
Qed.

Lemma reachable_invariant (s : t) : reachable s -> invariant s.
Proof.
  induction 1; auto using invariant_init, invariant_step.
Qed.

Lemma reachable_run (cs : list call) (s : t) :
  reachable s -> reachable (run cs s).
Proof.
  revert s. induction cs as [|c cs IH]; simpl; intros s H; [exact H|].
  apply IH. constructor. exact H.
Qed.

Lemma reachable_toggle_start :
  reachable (toggle_run 1 (__init__ 600 1)).
Proof. apply (reach_step (Toggle 1)). apply reach_init. Qed.

(** What the code does guarantee of a paused controller: one of the two
    clocks is at zero. *)
Lemma paused_shot_or_frame_zero (s : t) :
  reachable s -> running s = false ->
  shot_remaining s = 0 \/ frame_remaining s = 0.
Proof. intros H. apply inv_paused, reachable_invariant, H. Qed.

(** ** Runs of calls *)

(** Frame time never grows, and stays where it is while paused. *)
Lemma step_frame_le (c : call) (s : t) :
  invariant s -> frame_remaining (step c s) <= frame_remaining s.
Proof.
  intros I. destruct c as [now | now |]; cbn [step].
  - unfold toggle_run.
    destruct (_ <=? _); [|destruct (running s)]; simpl; lia.
  - destruct (update_cases now s) as [[R E] | [[R [Hd E]] | [R Hd]]];
      try (rewrite E; simpl; lia).
    destruct (update_tick now s R Hd) as (Ef & _). rewrite Ef.
    destruct (inv_running s I R). lia.
  - unfold shot_changed. destruct (negb _); simpl; lia.
Qed.

Lemma run_frame_le (cs : list call) (s : t) :
  invariant s -> frame_remaining (run cs s) <= frame_remaining s.
Proof.
  revert s. induction cs as [|c cs IH]; simpl; intros s I; [lia|].
  specialize (IH (step c s) (invariant_step c s I)).
  pose proof (step_frame_le c s I). unfold run in *. lia.
Qed.

(** Without a [toggle_run] a paused controller keeps both clocks. *)
Lemma paused_run_no_toggle (cs : list call) (s : t) :
  running s = false -> no_toggle cs = true ->
  running (run cs s) = false /\
  frame_remaining (run cs s) = frame_remaining s /\
  shot_remaining (run cs s) = shot_remaining s /\
  _accum (run cs s) = _accum s.
Proof.
  revert s. induction cs as [|c cs IH]; simpl; intros s R N; [auto|].
  apply andb_true_iff in N. destruct N as [Nc N].
  destruct c as [now | now |]; [discriminate| |]; cbn [step].
  - rewrite (update_paused now s R).
    destruct (IH (set_last_tick now s) R N) as (? & ? & ? & ?). auto.
  - assert (R' : running (snd (shot_changed s)) = false)
      by (unfold shot_changed; destruct (negb _); exact R).
    destruct (IH _ R' N) as (E1 & E2 & E3 & E4).
    unfold run in *. rewrite E1, E2, E3, E4.
    unfold shot_changed; destruct (negb _); auto.
Qed.

(** An update that adds no time to an accumulator below one second leaves
    the clocks alone. *)
Lemma update_no_tick (now : Q) (s : t) :
  (_accum s < 1)%Q -> (now - _last_tick s <= 0)%Q ->
  dec_of now s <= 0 /\
  frame_remaining (update now s) = frame_remaining s /\
  shot_remaining (update now s) = shot_remaining s /\
  running (update now s) = running s /\
  _prev_shot_remaining (update now s) = _prev_shot_remaining s /\
  _last_tick (update now s) = now /\
  _accum (update now s) =
    (if running s then _accum s + (now - _last_tick s) else _accum s)%Q.
Proof.
  intros Ha Hd.
  assert (D : dec_of now s <= 0) by (apply int_zero_delta; assumption).
  split; [exact D|].
  destruct (running s) eqn:R.
  - rewrite (update_subsecond now s R D). simpl. repeat split; assumption.
  - rewrite (update_paused now s R). simpl. repeat split; assumption.
Qed.

Lemma Qminus_le_0 (a b : Q) : (a <= b)%Q -> (a - b <= 0)%Q.
Proof.
  intros H. unfold Qminus. rewrite <- (Qplus_opp_r b).
  apply Qplus_le_l. exact H.
Qed.

(** The shot clock after a whole-second decrement: decremented, floored at
    0, and cut to 10 s when the frame is then in its final phase. *)
Lemma update_tick_shot (now : Q) (s : t) :
  running s = true -> 0 < dec_of now s ->
  let sh := Z.max 0 (shot_remaining s - dec_of now s) in
  shot_remaining (update now s) =
  if (frame_remaining (update now s) <=? FINAL_PHASE_SECONDS)
     && (SHOT_CLOCK_FINAL_SECONDS <? sh)
  then SHOT_CLOCK_FINAL_SECONDS else sh.
Proof.
  intros R Hd. destruct (update_tick now s R Hd) as (Ef & Es & _).
  cbv zeta. rewrite Ef, Es. reflexivity.
Qed.

(** ** Properties of the controller *)

(** C1. The specification asks that in every state reachable from the constructor by
    [toggle_run] and [update] calls with non-decreasing clock readings,
    [running = false] implies [shot_remaining = 0], in particular after an
    update in which the frame clock reaches 0 while the shot clock is still
    positive.  The code does not do this: a 5 s frame, a shot started at
    time 0 (10 s, final phase) and one update at time 5 leave the controller
    paused with [frame_remaining = 0] and [shot_remaining = 5].  The
    auto-stop of [update] clears [running] and [_accum] only, while both
    stopping paths of [toggle_run] also clear [shot_remaining]. *)
Theorem C1_frame_expiry_leaves_shot_time :
  let cs := [Toggle 0; Update 5] in
  let s := run cs (__init__ 5 0) in
  nondecreasing 0 cs = true /\
  reachable s /\
  running s = false /\ frame_remaining s = 0 /\ shot_remaining s = 5.
Proof.
  cbv zeta. split; [reflexivity|]. split.
  - apply reachable_run, reach_init.
  - vm_compute. repeat split.
Qed.

(** The same end of frame, from the 5:30 menu option. *)
Example frame_530_ends_with_shot_time :
  let s := run frame_530 (__init__ (5 * 60 + 30) 0) in
  nondecreasing 0 frame_530 = true /\
  running s = false /\ frame_remaining s = 0 /\ shot_remaining s = 5.
Proof. vm_compute. repeat split. Qed.

(** C2, counterexample.  A shot started at clock reading 1 and an update at
    reading 0: the jump of one second backwards gives [dec = -1], not 0, and
    leaves [_accum = -1]. *)
Lemma C2_backwards_jump_counterexample :
  let s := toggle_run 1 (__init__ 600 1) in
  reachable s /\
  dec_of 0 s = -1 /\
  (_accum (update 0 s) == -1)%Q /\
  ~ ((0 < _last_tick s)%Q ->
     dec_of 0 s = 0 /\
     frame_remaining (update 0 s) = frame_remaining s /\
     shot_remaining (update 0 s) = shot_remaining s /\
     (0 <= _accum (update 0 s))%Q /\ (_accum (update 0 s) < 1)%Q).
Proof.
  cbv zeta. split; [exact reachable_toggle_start|].
  split; [reflexivity|]. split; [reflexivity|].
  intros H. destruct H as (H & _); [reflexivity|]. discriminate H.
Qed.

(** A jump of half a second backwards gives [dec = 0] and still leaves the
    accumulator negative. *)
Example backwards_half_second :
  let s := toggle_run 1 (__init__ 600 1) in
  dec_of (1 # 2) s = 0 /\ (_accum (update (1 # 2) s) == - (1 # 2))%Q.
Proof. split; reflexivity. Qed.

(** C2, as amended.  In a reachable state an [update] whose clock reading
    is earlier than [_last_tick] changes neither [frame_remaining] nor
    [shot_remaining] nor [running], because [dec <= 0]; it stores the
    reading in [_last_tick].  The accumulator stays below 1: unchanged when
    paused, and lowered by the length of the jump when running (so it may
    become negative, and [dec] with it). *)
Theorem C2_backwards_jump (now : Q) (s : t) :
  reachable s -> (now < _last_tick s)%Q ->
  let s' := update now s in
  dec_of now s <= 0 /\
  frame_remaining s' = frame_remaining s /\
  shot_remaining s' = shot_remaining s /\
  running s' = running s /\
  _last_tick s' = now /\
  (_accum s' < 1)%Q /\
  (running s = false -> _accum s' = _accum s) /\
  (running s = true ->
   _accum s' = (_accum s + (now - _last_tick s))%Q /\
   (_accum s' < _accum s)%Q).
Proof.
  intros H L. cbv zeta.
  pose proof (inv_accum s (reachable_invariant s H)) as Ha.
  destruct (update_no_tick now s Ha) as (D & Ef & Es & Er & _ & Et & Ea).
  { apply Qminus_le_0, Qlt_le_weak, L. }
  do 5 (split; [assumption|]). split; [|split].
  - apply (inv_accum _ (reachable_invariant _ (reach_step (Update now) s H))).
  - intros R. rewrite R in Ea. exact Ea.
  - intros R. rewrite R in Ea. split; [exact Ea|]. rewrite Ea.
    rewrite <- (Qplus_0_r (_accum s)) at 2. apply Qplus_lt_r.
    unfold Qminus. rewrite <- (Qplus_opp_r (_last_tick s)).
    apply Qplus_lt_l. exact L.
Qed.

Lemma C2_backwards_jump_witness :
  let s := toggle_run 1 (__init__ 600 1) in
  let s' := update 0 s in
  (0 < _last_tick s)%Q /\
  dec_of 0 s <= 0 /\
  frame_remaining s' = frame_remaining s /\
  shot_remaining s' = shot_remaining s /\
  running s' = running s /\
  _last_tick s' = 0%Q /\
  (_accum s' < 1)%Q /\
  (running s = false -> _accum s' = _accum s) /\
  (running s = true ->
   _accum s' = (_accum s + (0 - _last_tick s))%Q /\
   (_accum s' < _accum s)%Q).
Proof.
  cbv zeta. split; [reflexivity|].
  apply (C2_backwards_jump 0 (toggle_run 1 (__init__ 600 1))).
  - apply (reach_step (Toggle 1)). apply reach_init.
  - reflexivity.
Defined.

(** C3. In a reachable state whose [frame_remaining] is at or below
    [FINAL_PHASE_SECONDS] (300), [shot_remaining] is at most
    [SHOT_CLOCK_FINAL_SECONDS] (10), and after any further calls the frame
    is still in its final phase and the shot clock still at most 10.  A
    [toggle_run] that starts a shot there sets it to 10.  [update] clamps
    after decrementing, in any state: the new shot clock is the decremented
    one, cut to 10 exactly when the new frame time is at most 300 and the
    decremented shot clock exceeds 10; a decremented value of at most 10 is
    kept. *)
Theorem C3_final_phase_clamp (s : t) (cs : list call) :
  reachable s -> frame_remaining s <= FINAL_PHASE_SECONDS ->
  shot_remaining s <= SHOT_CLOCK_FINAL_SECONDS /\
  frame_remaining (run cs s) <= FINAL_PHASE_SECONDS /\
  shot_remaining (run cs s) <= SHOT_CLOCK_FINAL_SECONDS /\
  (forall now, 0 < frame_remaining s -> running s = false ->
     shot_remaining (toggle_run now s) = SHOT_CLOCK_FINAL_SECONDS) /\
  (forall now s0, running s0 = true -> 0 < dec_of now s0 ->
     let sh := Z.max 0 (shot_remaining s0 - dec_of now s0) in
     shot_remaining (update now s0) =
       (if (frame_remaining (update now s0) <=? FINAL_PHASE_SECONDS)
           && (SHOT_CLOCK_FINAL_SECONDS <? sh)
        then SHOT_CLOCK_FINAL_SECONDS else sh) /\
     (sh <= SHOT_CLOCK_FINAL_SECONDS -> shot_remaining (update now s0) = sh)).
Proof.
  intros H F.
  pose proof (reachable_invariant s H) as I.
  pose proof (reachable_invariant _ (reachable_run cs s H)) as I'.
  pose proof (run_frame_le cs s I) as L.
  split; [apply (inv_final s I F)|].
  split; [lia|]. split; [apply (inv_final _ I'); lia|]. split.
  - intros now F0 R. unfold toggle_run, _current_shot_length.
    apply Z.leb_gt in F0. apply Z.leb_le in F. rewrite F0, R. simpl.
    rewrite F. reflexivity.
  - intros now s0 R Hd sh. pose proof (update_tick_shot now s0 R Hd) as E.
    cbv zeta in E. fold sh in E. split; [exact E|].
    intros Hs. rewrite E. apply Z.ltb_ge in Hs. rewrite Hs.
    rewrite andb_false_r. reflexivity.
Qed.

Lemma C3_final_phase_clamp_witness :
  let s := run [Toggle 0; Update 11] (__init__ 310 0) in
  let cs := [Update 12; Toggle 13; Toggle 14; Update 20; Poll] in
  frame_remaining s <= FINAL_PHASE_SECONDS /\
  shot_remaining s <= SHOT_CLOCK_FINAL_SECONDS /\
  frame_remaining (run cs s) <= FINAL_PHASE_SECONDS /\
  shot_remaining (run cs s) <= SHOT_CLOCK_FINAL_SECONDS.
Proof.
  cbv zeta. split; [vm_compute; discriminate|].
  pose proof (C3_final_phase_clamp
                (run [Toggle 0; Update 11] (__init__ 310 0))
                [Update 12; Toggle 13; Toggle 14; Update 20; Poll]) as T.
  destruct T as (T1 & T2 & T3 & _).
  - apply reachable_run, reach_init.
  - vm_compute; discriminate.
  - auto.
Defined.

(** The scenarios of the final-phase rule: a 15 s shot started at 310 s of
    frame time and 11 s later (299 s, shot 4 s, no clamp); the same shot
    10 s later (300 s, shot 5 s); and a 15 s shot started at 302 s, 2 s
    later (300 s, 13 s cut to 10 s). *)
Example clamp_not_needed :
  let s := run [Toggle 0; Update 11] (__init__ 310 0) in
  frame_remaining s = 299 /\ shot_remaining s = 4 /\ running s = true.
Proof. vm_compute. repeat split. Qed.

Example clamp_fires :
  let s := run [Toggle 0; Update 2] (__init__ 302 0) in
  frame_remaining s = 300 /\ shot_remaining s = 10 /\ running s = true.
Proof. vm_compute. repeat split. Qed.

(** C4. An [update] that brings [frame_remaining] or [shot_remaining] to 0
    (from a value that was not 0) sets [running] to false and [_accum] to
    0, and after it any sequence of calls without a [toggle_run], whatever
    clock readings its updates carry, leaves [frame_remaining] and
    [shot_remaining] as that update left them. *)
Theorem C4_auto_stop (now : Q) (s : t) (cs : list call) :
  (frame_remaining (update now s) = 0 /\ frame_remaining s <> 0) \/
  (shot_remaining (update now s) = 0 /\ shot_remaining s <> 0) ->
  no_toggle cs = true ->
  let s' := update now s in
  running s' = false /\
  _accum s' = 0%Q /\
  running (run cs s') = false /\
  frame_remaining (run cs s') = frame_remaining s' /\
  shot_remaining (run cs s') = shot_remaining s'.
Proof.
  intros Hz N. cbv zeta.
  assert (S : running (update now s) = false /\ _accum (update now s) = 0%Q).
  { destruct (update_cases now s) as [[R E] | [[R [Hd E]] | [R Hd]]].
    - rewrite E in Hz. simpl in Hz. tauto.
    - rewrite E in Hz. simpl in Hz. tauto.
    - destruct (update_tick now s R Hd) as (Ef & Es & Er & _ & _ & Ea).
      rewrite Er, Ea. rewrite <- Es, <- Ef.
      assert (St : (frame_remaining (update now s) =? 0)
                   || (shot_remaining (update now s) =? 0) = true).
      { apply orb_true_iff. destruct Hz as [[Z0 _] | [Z0 _]];
          [left | right]; apply Z.eqb_eq; exact Z0. }
      rewrite St. split; reflexivity. }
  destruct S as [R A].
  destruct (paused_run_no_toggle cs _ R N) as (R' & F' & S' & _).
  auto.
Qed.

Lemma C4_auto_stop_witness :
  let s := toggle_run 0 (__init__ 330 0) in
  let s' := update 16 s in
  let cs := [Poll; Update 17; Update 60; Poll; Update 3600] in
  (shot_remaining s' = 0 /\ shot_remaining s <> 0) /\
  no_toggle cs = true /\
  running s' = false /\
  _accum s' = 0%Q /\
  running (run cs s') = false /\
  frame_remaining (run cs s') = 314 /\
  shot_remaining (run cs s') = 0.
Proof.
  cbv zeta.
  split; [split; [reflexivity | discriminate]|].
  split; [reflexivity|].
  pose proof (C4_auto_stop 16 (toggle_run 0 (__init__ 330 0))
                [Poll; Update 17; Update 60; Poll; Update 3600]) as T.
  destruct T as (T1 & T2 & T3 & T4 & T5).
  - right. split; [reflexivity | discriminate].
  - reflexivity.
  - split; [exact T1|]. split; [exact T2|]. split; [exact T3|].
    split; [rewrite T4 | rewrite T5]; reflexivity.
Defined.

(** The 5:30 scenario: a 15 s shot left to run for 16 s expires by itself
    one second before, with 314 s of frame left, and [shot_changed] reports
    the expiry once. *)
Example shot_expires_naturally :
  let s := run [Toggle 0; Update 16] (__init__ 330 0) in
  frame_remaining s = 314 /\ shot_remaining s = 0 /\ running s = false /\
  fst (shot_changed s) = Some (15, 0) /\
  fst (shot_changed (snd (shot_changed s))) = None.
Proof. vm_compute. repeat split. Qed.

(** C5. [shot_changed] returns [(prev, cur)] exactly when [shot_remaining]
    differs from [_prev_shot_remaining], and then stores the current value
    in [_prev_shot_remaining]; otherwise it returns [None] and changes
    nothing.  After any call the two fields agree, so a call repeated at
    once returns [None]: each new value is reported once. *)
Theorem C5_shot_changed_once (s : t) :
  (shot_remaining s <> _prev_shot_remaining s ->
   shot_changed s =
   (Some (_prev_shot_remaining s, shot_remaining s),
    set_prev_shot_remaining (shot_remaining s) s)) /\
  (shot_remaining s = _prev_shot_remaining s -> shot_changed s = (None, s)) /\
  (fst (shot_changed s) <> None <->
   shot_remaining s <> _prev_shot_remaining s) /\
  _prev_shot_remaining (snd (shot_changed s)) = shot_remaining s /\
  shot_remaining (snd (shot_changed s)) = shot_remaining s /\
  fst (shot_changed (snd (shot_changed s))) = None.
Proof.
  unfold shot_changed.
  destruct (shot_remaining s =? _prev_shot_remaining s) eqn:E; simpl; tests.
  - rewrite (proj2 (Z.eqb_eq _ _) E). simpl.
    repeat split; try congruence; try tauto.
  - rewrite Z.eqb_refl. simpl.
    repeat split; try congruence; try tauto; try discriminate.
Qed.

(** A 15 s shot polled after an update every half second: each new value
    of the shot clock is reported by one call, and the calls in between
    report nothing. *)
Example each_second_reported_once :
  poll_results
    [Toggle 0; Poll; Update (1 # 2); Poll; Update 1; Poll; Update (3 # 2);
     Poll; Update 2; Poll; Update (5 # 2); Poll; Update 3; Poll]
    (__init__ 600 0)
  = [None; None; Some (15, 14); None; Some (14, 13); None; Some (13, 12)].
Proof. reflexivity. Qed.

(** C6. A [toggle_run] on a running controller with frame time left stops
    it: [running] becomes false and [shot_remaining] 0 whatever shot time
    was left, and [_prev_shot_remaining] is cleared to 0 too, so the
    [shot_changed] that follows reports no change. *)
Theorem C6_manual_stop_silent (now : Q) (s : t) :
  running s = true -> 0 < frame_remaining s ->
  let s' := toggle_run now s in
  running s' = false /\
  shot_remaining s' = 0 /\
  _prev_shot_remaining s' = 0 /\
  shot_changed s' = (None, s').
Proof.
  intros R F. unfold toggle_run. apply Z.leb_gt in F. rewrite F, R.
  cbv zeta. repeat split.
Qed.

Lemma C6_manual_stop_silent_witness :
  let s := toggle_run 0 (__init__ 600 0) in
  let s' := toggle_run 7 s in
  running s = true /\ 0 < frame_remaining s /\
  running s' = false /\ shot_remaining s' = 0 /\
  _prev_shot_remaining s' = 0 /\ shot_changed s' = (None, s').
Proof.
  cbv zeta. split; [reflexivity|]. split; [reflexivity|].
  apply (C6_manual_stop_silent 7 (toggle_run 0 (__init__ 600 0)));
    reflexivity.
Defined.

(** C7. In a reachable state, [update] with zero elapsed time (a clock
    reading equal to [_last_tick], hence also the second of two calls with
    the same reading) changes neither [frame_remaining] nor
    [shot_remaining]: the accumulator is below 1 in every reachable state,
    so [dec <= 0]. *)
Theorem C7_update_zero_elapsed (now : Q) (s : t) :
  reachable s ->
  (_accum s < 1)%Q /\
  (frame_remaining (update now (update now s)) = frame_remaining (update now s) /\
   shot_remaining (update now (update now s)) = shot_remaining (update now s)) /\
  ((now == _last_tick s)%Q ->
   dec_of now s <= 0 /\
   frame_remaining (update now s) = frame_remaining s /\
   shot_remaining (update now s) = shot_remaining s).
Proof.
  intros H.
  assert (Z0 : forall s0, reachable s0 -> (now == _last_tick s0)%Q ->
            dec_of now s0 <= 0 /\
            frame_remaining (update now s0) = frame_remaining s0 /\
            shot_remaining (update now s0) = shot_remaining s0).
  { intros s0 H0 E.
    destruct (update_no_tick now s0 (inv_accum s0 (reachable_invariant s0 H0)))
      as (D & Ef & Es & _).
    - apply Qminus_le_0. rewrite E. apply Qle_refl.
    - auto. }
  split; [apply (inv_accum s (reachable_invariant s H))|]. split.
  - apply (Z0 (update now s) (reach_step (Update now) s H)).
    destruct (update_cases now s) as [[R E] | [[R [Hd E]] | [R Hd]]];
      try (rewrite E; simpl; reflexivity).
    destruct (update_tick now s R Hd) as (_ & _ & _ & Et & _).
    rewrite Et. reflexivity.
  - apply (Z0 s H).
Qed.

Lemma C7_update_zero_elapsed_witness :
  let s := run [Toggle 0; Update (5 # 2)] (__init__ 330 0) in
  let now := (5 # 2)%Q in
  (_accum s < 1)%Q /\
  (frame_remaining (update now (update now s)) = frame_remaining (update now s) /\
   shot_remaining (update now (update now s)) = shot_remaining (update now s)) /\
  ((now == _last_tick s)%Q ->
   dec_of now s <= 0 /\
   frame_remaining (update now s) = frame_remaining s /\
   shot_remaining (update now s) = shot_remaining s).
Proof.
  cbv zeta.
  apply (C7_update_zero_elapsed (5 # 2)
           (run [Toggle 0; Update (5 # 2)] (__init__ 330 0))).
  apply reachable_run, reach_init.
Defined.

(** C8. [toggle_run] on a controller whose frame is over
    ([frame_remaining <= 0]) leaves it paused whatever state it was in, with
    [shot_remaining], [_accum] and [_prev_shot_remaining] all 0 and the
    frame clock untouched.  So no shot starts after the frame has ended: a
    controller that has reached the end of its frame stays paused under
    every further sequence of calls. *)
Theorem C8_toggle_refused_after_frame (now : Q) (s : t) :
  frame_remaining s <= 0 ->
  let s' := toggle_run now s in
  running s' = false /\
  shot_remaining s' = 0 /\
  _accum s' = 0%Q /\
  _prev_shot_remaining s' = 0 /\
  frame_remaining s' = frame_remaining s /\
  (reachable s -> forall cs, running (run cs s) = false).
Proof.
  intros F. unfold toggle_run. apply Z.leb_le in F. rewrite F. cbv zeta.
  repeat split. intros H cs. apply Z.leb_le in F.
  assert (I : invariant (run cs s))
    by (apply reachable_invariant, reachable_run, H).
  pose proof (run_frame_le cs s (reachable_invariant s H)) as L.
  destruct (running (run cs s)) eqn:R; [|reflexivity].
  destruct (inv_running _ I R). lia.
Qed.

Lemma C8_toggle_refused_after_frame_witness :
  let s := run [Toggle 0; Update 5] (__init__ 5 0) in
  let s' := toggle_run 6 s in
  frame_remaining s <= 0 /\
  running s' = false /\ shot_remaining s' = 0 /\ _accum s' = 0%Q /\
  _prev_shot_remaining s' = 0 /\ frame_remaining s' = frame_remaining s /\
  (reachable s -> forall cs, running (run cs s) = false).
Proof.
  cbv zeta. split; [vm_compute; discriminate|].
  apply (C8_toggle_refused_after_frame 6
           (run [Toggle 0; Update 5] (__init__ 5 0))).
  vm_compute; discriminate.
Defined.

(** C9. On a paused controller [update] stores the clock reading in
    [_last_tick] and changes nothing else. *)
Theorem C9_update_paused_frame (now : Q) (s : t) :
  running s = false ->
  let s' := update now s in
  s' = set_last_tick now s /\
  _last_tick s' = now /\
  frame_remaining s' = frame_remaining s /\
  shot_remaining s' = shot_remaining s /\
  running s' = running s /\
  _accum s' = _accum s /\
  _prev_shot_remaining s' = _prev_shot_remaining s.
Proof.
  intros R. cbv zeta. rewrite (update_paused now s R). repeat split.
Qed.

Lemma C9_update_paused_frame_witness :
  let s := __init__ 1800 0 in
  let s' := update 42 s in
  running s = false /\
  s' = set_last_tick 42 s /\ _last_tick s' = 42%Q /\
  frame_remaining s' = frame_remaining s /\
  shot_remaining s' = shot_remaining s /\
  running s' = running s /\ _accum s' = _accum s /\
  _prev_shot_remaining s' = _prev_shot_remaining s.
Proof.
  cbv zeta. split; [reflexivity|].
  apply (C9_update_paused_frame 42 (__init__ 1800 0)). reflexivity.
Defined.

(** C10. A [toggle_run] that starts a shot run (frame time left, not
    running) leaves [_prev_shot_remaining] equal to the new
    [shot_remaining], the shot length chosen for the frame time, so the
    [shot_changed] that follows returns [None]: the jump to the new shot
    length is not reported. *)
Theorem C10_start_not_reported (now : Q) (s : t) :
  0 < frame_remaining s -> running s = false ->
  let s' := toggle_run now s in
  running s' = true /\
  shot_remaining s' = _current_shot_length s /\
  _prev_shot_remaining s' = shot_remaining s' /\
  shot_changed s' = (None, s').
Proof.
  intros F R. unfold toggle_run. apply Z.leb_gt in F. rewrite F, R.
  cbv zeta. unfold shot_changed. simpl. rewrite Z.eqb_refl. simpl.
  repeat split.
Qed.

Lemma C10_start_not_reported_witness :
  let s := __init__ 330 0 in
  let s' := toggle_run 3 s in
  0 < frame_remaining s /\ running s = false /\
  running s' = true /\ shot_remaining s' = _current_shot_length s /\
  _prev_shot_remaining s' = shot_remaining s' /\
  shot_changed s' = (None, s').
Proof.
  cbv zeta. split; [reflexivity|]. split; [reflexivity|].
  apply (C10_start_not_reported 3 (__init__ 330 0)); reflexivity.
Defined.

(** ** Further properties of the controller *)






Lemma step_frame_nonneg (c : call) (s : t) :
  0 <= frame_remaining s -> 0 <= frame_remaining (step c s).
Proof.
  intros F. destruct c as [now | now |]; cbn [step].
  - unfold toggle_run.
    destruct (_ <=? _); [|destruct (running s)]; simpl; lia.
  - destruct (update_cases now s) as [[R E] | [[R [Hd E]] | [R Hd]]];
      try (rewrite E; simpl; lia).
    destruct (update_tick now s R Hd) as (Ef & _). rewrite Ef. lia.
  - unfold shot_changed. destruct (negb _); simpl; lia.
Qed.

Lemma run_app_step (cs : list call) (c : call) (s : t) :
  run (cs ++ [c]) s = step c (run cs s).
Proof. unfold run. rewrite fold_left_app. reflexivity. Qed.

Lemma run_cons (c : call) (cs : list call) (s : t) :
  run (c :: cs) s = run cs (step c s).
Proof. reflexivity. Qed.

Lemma run_frame_nonneg (cs : list call) (s : t) :
  0 <= frame_remaining s -> 0 <= frame_remaining (run cs s).
Proof.
  revert s. induction cs as [|c cs IH]; intros s F; [exact F|].
  rewrite run_cons. apply IH, step_frame_nonneg, F.
Qed.

(** X1. Whatever calls follow the constructor, the frame clock never
    exceeds the duration it was given and never goes below 0 for a
    non-negative duration, the shot clock stays between 0 and
    [SHOT_CLOCK_NORMAL_SECONDS] (15), and while the controller is running
    both clocks are positive. *)
Theorem clocks_within_range (D : Z) (now : Q) (cs : list call) :
  let s := run cs (__init__ D now) in
  frame_remaining s <= D /\
  (0 <= D -> 0 <= frame_remaining s) /\
  0 <= shot_remaining s <= SHOT_CLOCK_NORMAL_SECONDS /\
  (running s = true -> 0 < frame_remaining s /\ 0 < shot_remaining s).
Proof.
  cbv zeta.
  pose proof (invariant_init D now) as I0.
  assert (I : invariant (run cs (__init__ D now)))
    by (apply reachable_invariant, reachable_run, reach_init).
  split; [apply (run_frame_le cs _ I0)|].
  split; [intros HD; apply run_frame_nonneg; exact HD|].
  split; [split; [apply (inv_shot_nonneg _ I) | apply (inv_shot_max _ I)]|].
  apply (inv_running _ I).
Qed.

(** With a clock that never goes backwards the accumulator stays
    non-negative. *)
Lemma step_accum_nonneg (c : call) (s : t) (t0 : Q) :
  (0 <= _accum s)%Q -> (_last_tick s <= t0)%Q ->
  nondecreasing t0 [c] = true ->
  (0 <= _accum (step c s))%Q /\
  (_last_tick (step c s) <= match c with Toggle n | Update n => n | Poll => t0 end)%Q.
Proof.
  intros A L N. destruct c as [now | now |]; cbn [step nondecreasing] in *.
  - rewrite andb_true_r in N. apply Qle_bool_iff in N.
    unfold toggle_run.
    destruct (_ <=? _); [|destruct (running s)]; simpl; lra.
  - rewrite andb_true_r in N. apply Qle_bool_iff in N.
    destruct (update_cases now s) as [[R E] | [[R [Hd E]] | [R Hd]]].
    + rewrite E. simpl. lra.
    + rewrite E. simpl. lra.
    + destruct (update_tick now s R Hd) as (_ & _ & _ & Et & _ & Ea).
      rewrite Et, Ea. split; [|lra].
      destruct (_ || _); [lra|].
      apply (int_pos_fraction _ Hd).
  - unfold shot_changed. destruct (negb _); simpl; lra.
Qed.

Lemma run_accum_nonneg (cs : list call) (s : t) (t0 : Q) :
  (0 <= _accum s)%Q -> (_last_tick s <= t0)%Q ->
  nondecreasing t0 cs = true ->
  (0 <= _accum (run cs s))%Q.
Proof.
  revert s t0. induction cs as [|c cs IH]; intros s t0 A L N; [exact A|].
  rewrite run_cons.
  assert (N1 : nondecreasing t0 [c] = true).
  { destruct c; cbn [nondecreasing] in *; try reflexivity;
      apply andb_true_iff in N; destruct N as [N _]; rewrite N; reflexivity. }
  destruct (step_accum_nonneg c s t0 A L N1) as [A' L'].
  destruct c as [now | now |]; cbn [nondecreasing] in N.
  - apply andb_true_iff in N. destruct N as [_ N]. apply (IH _ now A' L' N).
  - apply andb_true_iff in N. destruct N as [_ N]. apply (IH _ now A' L' N).
  - apply (IH _ t0 A' L' N).
Qed.

(** X2. When the clock readings of the calls never go backwards (as with
    [time.monotonic()]), starting from the reading taken by the
    constructor, the fractional accumulator is always in [0, 1). *)
Theorem monotone_clock_accumulator (D : Z) (t0 : Q) (cs : list call) :
  nondecreasing t0 cs = true ->
  let s := run cs (__init__ D t0) in
  (0 <= _accum s)%Q /\ (_accum s < 1)%Q.
Proof.
  intros N. cbv zeta. split.
  - apply (run_accum_nonneg cs _ t0); simpl; try lra. exact N.
  - apply inv_accum, reachable_invariant, reachable_run, reach_init.
Qed.









Lemma monotone_clock_accumulator_witness :
  let s := run [Toggle 0; Update (1 # 2); Poll; Update (7 # 4)]
             (__init__ 330 0) in
  (0 <= _accum s)%Q /\ (_accum s < 1)%Q.
Proof.
  cbv zeta.
  apply (monotone_clock_accumulator 330 0
           [Toggle 0; Update (1 # 2); Poll; Update (7 # 4)]).
  reflexivity.
Defined.



(** ** Formatting *)

Lemma str_nonneg (n : Z) :
  0 <= n -> str n = NilZero.string_of_uint (N.to_uint (Z.to_N n)).
Proof. destruct n; [reflexivity | reflexivity | lia]. Qed.

Lemma to_uint_nonnil (n : N) : N.to_uint n <> Nil.
Proof.
  intros E. pose proof (DecimalN.Unsigned.of_to n) as H. rewrite E in H.
  subst n. discriminate E.
Qed.

Lemma value_str (n : Z) : 0 <= n -> value (str n) = Some (Z.to_N n).
Proof.
  intros H. rewrite (str_nonneg n H). unfold value.
  rewrite (NilZero.usu _ (to_uint_nonnil _)). simpl.
  rewrite DecimalN.Unsigned.of_to. reflexivity.
Qed.

Lemma value_pad (s : string) (v : N) :
  value s = Some v -> value (String "0" s) = Some v.
Proof.
  unfold value. destruct s as [|a s]; [discriminate|].
  unfold NilZero.uint_of_string.
  change (NilEmpty.uint_of_string (String "0" (String a s)))
    with (uint_of_char "0" (NilEmpty.uint_of_string (String a s))).
  destruct (NilEmpty.uint_of_string (String a s)) as [d|]; [|discriminate].
  simpl. intros E. exact E.
Qed.

Lemma value_format_02d (n : Z) :
  0 <= n -> value (format_02d n) = Some (Z.to_N n).
Proof.
  intros H. unfold format_02d. cbv zeta.
  destruct (String.length (str n) <? 2)%nat;
    [apply value_pad|]; apply value_str, H.
Qed.

Lemma no_colon_string_of_uint (d : uint) :
  no_colon (NilEmpty.string_of_uint d) = true.
Proof. induction d; simpl; auto. Qed.

Lemma no_colon_format_02d (n : Z) : 0 <= n -> no_colon (format_02d n) = true.
Proof.
  intros H. unfold format_02d. cbv zeta. rewrite (str_nonneg n H).
  assert (E : no_colon (NilZero.string_of_uint (N.to_uint (Z.to_N n))) = true).
  { destruct (N.to_uint (Z.to_N n)) eqn:D;
      try reflexivity; rewrite <- D;
      unfold NilZero.string_of_uint; rewrite D; rewrite <- D;
      apply no_colon_string_of_uint. }
  destruct (_ <? _)%nat; [simpl; exact E | exact E].
Qed.

Lemma append_colon_inj (x x' y y' : string) :
  no_colon x = true -> no_colon x' = true ->
  (x ++ ":" ++ y = x' ++ ":" ++ y')%string -> x = x' /\ y = y'.
Proof.
  revert x'. induction x as [|a x IH]; intros [|a' x'] Hx Hx' E; simpl in *.
  - injection E as E. auto.
  - injection E as Ea E. subst a'. discriminate Hx'.
  - injection E as Ea E. subst a. discriminate Hx.
  - injection E as Ea E. subst a'.
    apply andb_true_iff in Hx, Hx'.
    destruct (IH x' (proj2 Hx) (proj2 Hx') E) as [-> ->]. auto.
Qed.

Lemma format_02d_inj (a b : Z) :
  0 <= a -> 0 <= b -> format_02d a = format_02d b -> a = b.
Proof.
  intros Ha Hb E.
  pose proof (value_format_02d a Ha) as Va.
  pose proof (value_format_02d b Hb) as Vb.
  rewrite E in Va. rewrite Va in Vb. injection Vb as Vb. lia.
Qed.

(** X6. [fmt_time] shows two durations the same way exactly when they are
    the same after clamping at 0: distinct non-negative times never share a
    display, whatever their size, and every negative time is shown as 0. *)
Theorem fmt_time_injective (a b : Z) :
  fmt_time a = fmt_time b <-> Z.max 0 a = Z.max 0 b.
Proof.
  split.
  - unfold fmt_time. cbv zeta.
    set (x := Z.max 0 a). set (y := Z.max 0 b). intros E.
    assert (Hx : 0 <= x) by lia. assert (Hy : 0 <= y) by lia.
    assert (Dx : 0 <= x / 60) by (apply Z.div_pos; lia).
    assert (Dy : 0 <= y / 60) by (apply Z.div_pos; lia).
    pose proof (Z.mod_pos_bound x 60 ltac:(lia)) as Mx.
    pose proof (Z.mod_pos_bound y 60 ltac:(lia)) as My.
    apply append_colon_inj in E; try (apply no_colon_format_02d; assumption).
    destruct E as [E1 E2].
    apply format_02d_inj in E1; [|assumption..].
    apply format_02d_inj in E2; [|lia..].
    rewrite (Z.div_mod x 60), (Z.div_mod y 60) by lia. congruence.
  - unfold fmt_time. cbv zeta. intros ->. reflexivity.
Qed.

Lemma format_02d_two_digits_table :
  forallb (fun k => String.eqb (format_02d (Z.of_nat k))
                      (two_digits (Z.of_nat k)))
          (seq 0 100) = true.
Proof. vm_compute. reflexivity. Qed.

Lemma format_02d_two_digits (k : Z) :
  0 <= k < 100 -> format_02d k = two_digits k.
Proof.
  intros H. pose proof format_02d_two_digits_table as T.
  rewrite forallb_forall in T. specialize (T (Z.to_nat k)).
  rewrite Z2Nat.id in T by lia. apply String.eqb_eq, T, in_seq. lia.
Qed.

Lemma fmt_time_two_digits (n : Z) :
  n < 6000 ->
  fmt_time n
  = (two_digits (Z.max 0 n / 60) ++ ":" ++ two_digits (Z.max 0 n mod 60))%string.
Proof.
  intros H. unfold fmt_time. cbv zeta.
  pose proof (Z.mod_pos_bound (Z.max 0 n) 60 ltac:(lia)) as M.
  assert (D : 0 <= Z.max 0 n / 60 < 100).
  { split; [apply Z.div_pos; lia|]. apply Z.div_lt_upper_bound; lia. }
  rewrite !format_02d_two_digits by lia. reflexivity.
Qed.

(** X7. Below 100 minutes [fmt_time] gives exactly five characters: two
    digits of minutes, a colon, two digits of seconds; zero and negative
    inputs give [00:00]. *)
Theorem fmt_time_shape (n : Z) :
  n < 6000 ->
  let k := Z.max 0 n in
  fmt_time n = (two_digits (k / 60) ++ ":" ++ two_digits (k mod 60))%string /\
  String.length (fmt_time n) = 5%nat /\
  (n <= 0 -> fmt_time n = "00:00"%string).
Proof.
  intros H. cbv zeta. pose proof (fmt_time_two_digits n H) as E.
  split; [exact E|]. split; [rewrite E; reflexivity|].
  intros Hn. unfold fmt_time. replace (Z.max 0 n) with 0 by lia. reflexivity.
Qed.

Lemma fmt_time_shape_witness :
  fmt_time 330 = "05:30"%string /\ String.length (fmt_time 330) = 5%nat.
Proof.
  destruct (fmt_time_shape 330) as (E & L & _); [reflexivity|].
  split; [rewrite E; reflexivity | exact L].
Defined.

(** ** The UI between calls *)

Lemma toggle_run_synced (now : Q) (c : t) :
  _prev_shot_remaining (toggle_run now c) = shot_remaining (toggle_run now c).
Proof.
  unfold toggle_run.
  destruct (_ <=? _); [|destruct (running c)]; reflexivity.
Qed.

Lemma toggle_run_frame (now : Q) (c : t) :
  frame_remaining (toggle_run now c) = frame_remaining c.
Proof.
  unfold toggle_run.
  destruct (_ <=? _); [|destruct (running c)]; reflexivity.
Qed.

Lemma shot_changed_synced (c : t) :
  _prev_shot_remaining (snd (shot_changed c)) = shot_remaining c /\
  shot_remaining (snd (shot_changed c)) = shot_remaining c /\
  running (snd (shot_changed c)) = running c /\
  frame_remaining (snd (shot_changed c)) = frame_remaining c.
Proof.
  unfold shot_changed.
  destruct (shot_remaining c =? _prev_shot_remaining c) eqn:E; simpl;
    repeat split.
  apply Z.eqb_eq in E. congruence.
Qed.

Lemma length_build_menu_buttons (res : Z * Z) (options : list (string * Z)) :
  List.length (build_menu_buttons res options) = List.length options.
Proof.
  unfold build_menu_buttons, enumerate. destruct res as [w h].
  rewrite length_map, length_combine, length_map, length_seq.
  apply Nat.min_id.
Qed.

Lemma ui_invariant_init : ui_invariant SpeedSnookerUI.__init__.
Proof.
  constructor; simpl; try reflexivity; try lia; try discriminate.
Qed.

Lemma mod_len_ok (x : Z) (u : SpeedSnookerUI.ui) :
  SpeedSnookerUI.buttons u = _build_menu_buttons ->
  SpeedSnookerUI.mod_len x u = Ok (x mod 4).
Proof. intros E. unfold SpeedSnookerUI.mod_len. rewrite E. reflexivity. Qed.

Lemma getitem_buttons (i : Z) :
  0 <= i < 4 ->
  exists b, getitem _build_menu_buttons i = Some b /\
            FINAL_PHASE_SECONDS < seconds b <= 30 * 60 /\
            getitem (map snd GAME_OPTIONS) i = Some (seconds b).
Proof.
  intros H.
  assert (C : i = 0 \/ i = 1 \/ i = 2 \/ i = 3) by lia.
  destruct C as [-> | [-> | [-> | ->]]]; eexists;
    (split; [reflexivity|]); (split; [|reflexivity]); vm_compute;
    split; congruence.
Qed.

Lemma ui_invariant_handle_event (now : Q) (ev : event)
    (u u' : SpeedSnookerUI.ui) :
  ui_invariant u -> SpeedSnookerUI.handle_event now ev u = Ok u' ->
  ui_invariant u'.
Proof.
  intros I E. pose proof I as [Hb Hi Hm Hf Hc].
  assert (Hmod : forall x, 0 <= x mod 4 < 4)
    by (intros x; apply Z.mod_pos_bound; lia).
  assert (Same : Ok u = Ok u' -> ui_invariant u') by (intros [= <-]; exact I).
  assert (Index : forall i, 0 <= i < 4 ->
            ui_invariant (SpeedSnookerUI.set_selected_index i u))
    by (intros i Hi'; constructor; simpl; assumption).
  assert (Load : forall seconds,
            FINAL_PHASE_SECONDS < seconds <= 30 * 60 ->
            ui_invariant (SpeedSnookerUI.load_frame_paused now seconds u)).
  { intros seconds Hs. constructor; simpl; try assumption; try discriminate.
    intros c [= <-]. split; [apply reach_init|]. split; [reflexivity|].
    simpl. unfold FINAL_PHASE_SECONDS in Hs. lia. }
  assert (Back : ui_invariant (SpeedSnookerUI.back_to_menu u))
    by (constructor; simpl; try assumption; try lia; try reflexivity;
        discriminate).
  assert (Fob : forall c, SpeedSnookerUI.frame u = Some c ->
            ui_invariant (SpeedSnookerUI.set_frame (toggle_run now c) u)).
  { intros c Fc. constructor; simpl; try assumption; try discriminate.
    - intros Sm. rewrite (Hm Sm) in Fc. discriminate.
    - intros c' [= <-]. destruct (Hc c Fc) as (Rc & _ & Hr).
      split; [apply (reach_step (Toggle now)), Rc|].
      split; [apply toggle_run_synced|].
      rewrite toggle_run_frame. exact Hr. }
  destruct ev as [| k sc |]; [discriminate| |apply Same, E].
  unfold SpeedSnookerUI.handle_event in E.
  destruct (SpeedSnookerUI.state u) eqn:S.
  - (* MENU *)
    destruct k; try discriminate; try (apply Same, E);
      try (rewrite (mod_len_ok _ u Hb) in E; injection E as <-;
           apply Index, Hmod).
    + destruct (getitem_buttons _ Hi) as (b & G & Hs & _). rewrite Hb, G in E.
      injection E as <-. apply Load, Hs.
    + destruct (getitem_buttons _ Hi) as (b & G & Hs & _). rewrite Hb, G in E.
      injection E as <-. apply Load, Hs.
  - (* FRAME *)
    assert (Scan : forall w,
      match sc with
      | Some 128 =>
          match SpeedSnookerUI.frame u with
          | Some c => Ok (SpeedSnookerUI.set_frame (toggle_run now c) u)
          | None => Raise AttributeError
          end
      | _ => Ok u
      end = Ok w -> ui_invariant w).
    { intros w Ew. destruct sc as [z|]; [|injection Ew as <-; exact I].
      destruct (Z.eq_dec z 128) as [-> | Hz].
      - destruct (SpeedSnookerUI.frame u) as [c|] eqn:Fc; [|discriminate].
        injection Ew as <-. apply Fob. reflexivity.
      - assert (Ew' : Ok u = Ok w).
        { rewrite <- Ew. destruct z as [|p|p]; try reflexivity.
          do 8 (destruct p as [p|p|]; try reflexivity). congruence. }
        injection Ew' as <-. exact I. }
    destruct k; try discriminate; try (apply (Scan _ E));
      injection E as <-; exact Back.
Qed.

Lemma ui_invariant_run_timers (now : Q) (u : SpeedSnookerUI.ui) :
  ui_invariant u -> ui_invariant (fst (SpeedSnookerUI.run_timers now u)).
Proof.
  intros I. pose proof I as [Hb Hi Hm Hf Hc].
  unfold SpeedSnookerUI.run_timers.
  destruct (SpeedSnookerUI.state u) eqn:S; [exact I|].
  destruct (SpeedSnookerUI.frame u) as [c|] eqn:Fc; [|exact I].
  destruct (shot_changed (update now c)) as [ch c'] eqn:P. simpl.
  constructor; simpl; rewrite ?S; try assumption; try discriminate.
  intros c0 [= <-]. destruct (Hc c eq_refl) as (Rc & _ & Hr).
  pose proof (shot_changed_synced (update now c)) as Y. rewrite P in Y.
  simpl in Y. destruct Y as (Y1 & Y2 & _ & Y4).
  split; [|split; [congruence|]];
    [|rewrite Y4;
      pose proof (step_frame_le (Update now) c (reachable_invariant c Rc));
      pose proof (step_frame_nonneg (Update now) c (proj1 Hr));
      simpl in *; lia].
  replace c' with (step Poll (step (Update now) c))
    by (simpl; rewrite P; reflexivity).
  do 2 apply reach_step. exact Rc.
Qed.

Lemma ui_reachable_invariant (u : SpeedSnookerUI.ui) :
  ui_reachable u -> ui_invariant u.
Proof.
  induction 1;
    eauto using ui_invariant_init, ui_invariant_handle_event,
      ui_invariant_run_timers.
Qed.

(** X8. In every state the UI can reach, [handle_event] raises only
    [SystemExit], and only for a [QUIT] event or the Escape key: the menu
    index is always a valid index of [buttons], and on the frame screen
    there is always a controller for the fob to toggle. *)
Theorem handle_event_only_exits (now : Q) (ev : event)
    (u : SpeedSnookerUI.ui) :
  ui_reachable u ->
  match SpeedSnookerUI.handle_event now ev u with
  | Ok u' => ui_reachable u'
  | Raise e =>
      e = SystemExit /\ (ev = QUIT \/ exists sc, ev = KEYDOWN K_ESCAPE sc)
  end.
Proof.
  intros H.
  destruct (SpeedSnookerUI.handle_event now ev u) as [u'|e] eqn:E;
    [apply (ui_event now ev u u' H E)|].
  destruct (ui_reachable_invariant u H) as [Hb Hi Hm Hf Hc].
  destruct ev as [| k sc |]; [injection E as <-; auto| |discriminate].
  unfold SpeedSnookerUI.handle_event in E.
  destruct k; try (injection E as <-; split; [reflexivity|right; eauto]);
    exfalso; destruct (SpeedSnookerUI.state u) eqn:S; try discriminate;
    rewrite ?(mod_len_ok _ u Hb) in E; try discriminate;
    try (destruct (getitem_buttons _ Hi) as (b & G & _);
         rewrite Hb, G in E; discriminate);
    try (destruct (SpeedSnookerUI.frame u) as [c|] eqn:Fc;
         [|apply Hf; reflexivity];
         destruct sc as [z|]; [|discriminate];
         destruct z as [|p|p]; try discriminate;
         do 8 (destruct p as [p|p|]; try discriminate)).
Qed.

Lemma handle_event_only_exits_witness :
  match SpeedSnookerUI.handle_event 0 (KEYDOWN K_RETURN None)
          SpeedSnookerUI.__init__ with
  | Ok u' => ui_reachable u'
  | Raise e =>
      e = SystemExit /\
      (KEYDOWN K_RETURN None = QUIT \/
       exists sc, KEYDOWN K_RETURN None = KEYDOWN K_ESCAPE sc)
  end.
Proof.
  apply (handle_event_only_exits 0 (KEYDOWN K_RETURN None)
           SpeedSnookerUI.__init__).
  apply ui_init.
Defined.

(** X9. On the menu, Down moves the selection one option down and wraps
    from the last option to the first, Up does the reverse, and each undoes
    the other: Down then Up, or Up then Down, gives back the same UI
    state. *)
Theorem menu_navigation_wraps (n1 n2 : Q) (sc1 sc2 : option Z)
    (u : SpeedSnookerUI.ui) :
  ui_reachable u -> SpeedSnookerUI.state u = SpeedSnookerUI.MENU ->
  let i := SpeedSnookerUI.selected_index u in
  let down := SpeedSnookerUI.set_selected_index (if i =? 3 then 0 else i + 1) u in
  let up := SpeedSnookerUI.set_selected_index (if i =? 0 then 3 else i - 1) u in
  SpeedSnookerUI.handle_event n1 (KEYDOWN K_DOWN sc1) u = Ok down /\
  SpeedSnookerUI.handle_event n1 (KEYDOWN K_UP sc1) u = Ok up /\
  SpeedSnookerUI.handle_event n2 (KEYDOWN K_UP sc2) down = Ok u /\
  SpeedSnookerUI.handle_event n2 (KEYDOWN K_DOWN sc2) up = Ok u.
Proof.
  intros H S. cbv zeta.
  destruct (ui_reachable_invariant u H) as [Hb Hi Hm Hf Hc].
  destruct u as [st i fr bs]. simpl in *. subst st bs.
  unfold SpeedSnookerUI.handle_event, SpeedSnookerUI.mod_len,
    SpeedSnookerUI.set_selected_index. simpl.
  assert (C : i = 0 \/ i = 1 \/ i = 2 \/ i = 3) by lia.
  destruct C as [-> | [-> | [-> | ->]]]; repeat split.
Qed.

Lemma menu_navigation_wraps_witness :
  let u := SpeedSnookerUI.__init__ in
  SpeedSnookerUI.handle_event 0 (KEYDOWN K_UP None) u
  = Ok (SpeedSnookerUI.set_selected_index 3 u) /\
  SpeedSnookerUI.handle_event 0 (KEYDOWN K_DOWN None)
    (SpeedSnookerUI.set_selected_index 3 u) = Ok u.
Proof.
  cbv zeta.
  destruct (menu_navigation_wraps 0 0 None None SpeedSnookerUI.__init__
              ui_init eq_refl) as (_ & U & _ & D).
  split; [exact U | exact D].
Defined.

(** X10. Enter (either key) on the menu opens the frame screen with a new
    controller holding the selected option's duration, paused; every menu
    duration is above the final phase, so the first shot started on it gets
    15 s. *)
Theorem menu_select_loads_paused_frame (now t1 : Q) (sc : option Z)
    (u : SpeedSnookerUI.ui) :
  ui_reachable u -> SpeedSnookerUI.state u = SpeedSnookerUI.MENU ->
  exists secs,
    getitem (map snd GAME_OPTIONS) (SpeedSnookerUI.selected_index u)
    = Some secs /\
    SpeedSnookerUI.handle_event now (KEYDOWN K_RETURN sc) u
    = Ok (SpeedSnookerUI.load_frame_paused now secs u) /\
    SpeedSnookerUI.handle_event now (KEYDOWN K_KP_ENTER sc) u
    = Ok (SpeedSnookerUI.load_frame_paused now secs u) /\
    SpeedSnookerUI.state (SpeedSnookerUI.load_frame_paused now secs u)
    = SpeedSnookerUI.FRAME /\
    SpeedSnookerUI.frame (SpeedSnookerUI.load_frame_paused now secs u)
    = Some (FrameController.__init__ secs now) /\
    running (FrameController.__init__ secs now) = false /\
    frame_remaining (FrameController.__init__ secs now) = secs /\
    shot_remaining (toggle_run t1 (FrameController.__init__ secs now))
    = SHOT_CLOCK_NORMAL_SECONDS.
Proof.
  intros H S.
  destruct (ui_reachable_invariant u H) as [Hb Hi Hm Hf Hc].
  destruct (getitem_buttons _ Hi) as (b & G & Hs & G2).
  exists (seconds b). split; [exact G2|].
  unfold SpeedSnookerUI.handle_event. rewrite S, Hb, G.
  do 6 (split; [reflexivity|]).
  unfold toggle_run, _current_shot_length. simpl.
  destruct Hs as [Hs _]. unfold FINAL_PHASE_SECONDS in *.
  replace (seconds b <=? 0) with false by (symmetry; apply Z.leb_gt; lia).
  simpl. replace (seconds b <=? 300) with false
    by (symmetry; apply Z.leb_gt; lia).
  reflexivity.
Qed.

Lemma menu_select_loads_paused_frame_witness :
  exists secs,
    getitem (map snd GAME_OPTIONS) 0 = Some secs /\
    SpeedSnookerUI.handle_event 7 (KEYDOWN K_RETURN None)
      SpeedSnookerUI.__init__
    = Ok (SpeedSnookerUI.load_frame_paused 7 secs SpeedSnookerUI.__init__).
Proof.
  destruct (menu_select_loads_paused_frame 7 8 None SpeedSnookerUI.__init__
              ui_init eq_refl) as (secs & G & E & _).
  exists secs. split; [exact G | exact E].
Defined.

(** The timer pass on the frame screen. *)
Lemma run_timers_frame (now : Q) (u : SpeedSnookerUI.ui) (c : t) :
  SpeedSnookerUI.state u = SpeedSnookerUI.FRAME ->
  SpeedSnookerUI.frame u = Some c ->
  SpeedSnookerUI.run_timers now u
  = (SpeedSnookerUI.set_frame (snd (shot_changed (update now c))) u,
     beep_of (fst (shot_changed (update now c)))).
Proof.
  intros S F. unfold SpeedSnookerUI.run_timers. rewrite S, F.
  destruct (shot_changed (update now c)). reflexivity.
Qed.

Lemma beep_of_synced (c c1 : t) :
  _prev_shot_remaining c1 = shot_remaining c ->
  let b := beep_of (fst (shot_changed c1)) in
  (b = Some Long <-> 0 < shot_remaining c /\ shot_remaining c1 = 0) /\
  (b = Some Short <->
   shot_remaining c1 <> shot_remaining c /\ 1 <= shot_remaining c1 <= 5).
Proof.
  intros P. cbv zeta. unfold shot_changed, beep_of. rewrite P.
  destruct (shot_remaining c1 =? shot_remaining c) eqn:E; simpl.
  - apply Z.eqb_eq in E. split; split; try discriminate; lia.
  - apply Z.eqb_neq in E.
    destruct (1 <=? shot_remaining c1) eqn:E1;
    destruct (shot_remaining c1 <=? 5) eqn:E2;
    destruct (shot_remaining c1 =? 0) eqn:E3;
    destruct (0 <? shot_remaining c) eqn:E4; simpl; tests;
    split; split; try discriminate; try reflexivity; try lia; auto.
Qed.

Lemma ui_running_530_reachable : ui_reachable ui_running_530.
Proof.
  apply (ui_event 0 (KEYDOWN (K_other 0) (Some 128))
           (SpeedSnookerUI.load_frame_paused 0 330
              (SpeedSnookerUI.set_selected_index 3 SpeedSnookerUI.__init__)));
    [|reflexivity].
  apply (ui_event 0 (KEYDOWN K_RETURN None)
           (SpeedSnookerUI.set_selected_index 3 SpeedSnookerUI.__init__));
    [|reflexivity].
  apply (ui_event 0 (KEYDOWN K_UP None) SpeedSnookerUI.__init__);
    [apply ui_init | reflexivity].
Qed.

(** The timer pass in terms of the controller: update, then poll. *)
Lemma run_timers_beeps (now : Q) (u : SpeedSnookerUI.ui) (c : t) :
  ui_reachable u ->
  SpeedSnookerUI.state u = SpeedSnookerUI.FRAME ->
  SpeedSnookerUI.frame u = Some c ->
  let u' := fst (SpeedSnookerUI.run_timers now u) in
  let b := snd (SpeedSnookerUI.run_timers now u) in
  exists c',
    SpeedSnookerUI.frame u' = Some c' /\
    frame_remaining c' = frame_remaining (update now c) /\
    shot_remaining c' = shot_remaining (update now c) /\
    running c' = running (update now c) /\
    _prev_shot_remaining c' = shot_remaining c' /\
    (b = Some Long <-> 0 < shot_remaining c /\ shot_remaining c' = 0) /\
    (b = Some Short <->
     shot_remaining c' <> shot_remaining c /\ 1 <= shot_remaining c' <= 5).
Proof.
  intros H S F. cbv zeta. rewrite (run_timers_frame now u c S F). simpl.
  destruct (ui_reachable_invariant u H) as [_ _ _ _ Hc].
  destruct (Hc c F) as (Rc & Pc & _).
  destruct (shot_changed_synced (update now c)) as (Y1 & Y2 & Y3 & Y4).
  exists (snd (shot_changed (update now c))).
  split; [reflexivity|]. split; [exact Y4|]. split; [exact Y2|].
  split; [exact Y3|]. split; [congruence|].
  assert (Pu : _prev_shot_remaining (update now c) = shot_remaining c).
  { destruct (update_cases now c) as [[R E] | [[R [Hd E]] | [R Hd]]];
      try (rewrite E; simpl; exact Pc).
    destruct (update_tick now c R Hd) as (_ & _ & _ & _ & Ep & _).
    congruence. }
  destruct (beep_of_synced c (update now c) Pu) as [BL BS].
  rewrite Y2. split; [exact BL | exact BS].
Qed.

(** X11. One timer pass of the main loop on the frame screen: the
    controller is updated and polled, so afterwards
    [_prev_shot_remaining] equals [shot_remaining].  The long beep sounds
    exactly when this pass brought a positive shot clock to 0, which only
    happens to a running controller and stops it; the short beep sounds
    exactly when the pass changed the shot clock to a value from 1 to 5; a
    paused controller never beeps. *)
Theorem beeps_follow_the_shot_clock (now : Q) (u : SpeedSnookerUI.ui)
    (c : t) :
  ui_reachable u ->
  SpeedSnookerUI.state u = SpeedSnookerUI.FRAME ->
  SpeedSnookerUI.frame u = Some c ->
  let u' := fst (SpeedSnookerUI.run_timers now u) in
  let b := snd (SpeedSnookerUI.run_timers now u) in
  exists c',
    SpeedSnookerUI.frame u' = Some c' /\
    frame_remaining c' = frame_remaining (update now c) /\
    shot_remaining c' = shot_remaining (update now c) /\
    running c' = running (update now c) /\
    _prev_shot_remaining c' = shot_remaining c' /\
    (b = Some Long <-> 0 < shot_remaining c /\ shot_remaining c' = 0) /\
    (b = Some Short <->
     shot_remaining c' <> shot_remaining c /\ 1 <= shot_remaining c' <= 5) /\
    (b = Some Long -> running c = true /\ running c' = false) /\
    (running c = false -> b = None).
Proof.
  intros H S F. cbv zeta.
  destruct (run_timers_beeps now u c H S F)
    as (c' & F' & Ef & Es & Er & Ep & BL & BS).
  destruct (ui_reachable_invariant u H) as [_ _ _ _ Hc].
  destruct (Hc c F) as (Rc & _ & _).
  exists c'. do 7 (split; [assumption|]). split.
  - intros B. apply BL in B. destruct B as [B1 B2].
    destruct (running c) eqn:R.
    + split; [reflexivity|]. rewrite Er.
      destruct (running (update now c)) eqn:R'; [|reflexivity].
      pose proof (reachable_invariant _ (reach_step (Update now) c Rc)) as I'.
      destruct (inv_running _ I' R'). simpl in *. lia.
    + rewrite Es, (update_paused now c R) in B2. simpl in B2. lia.
  - intros R. rewrite (update_paused now c R) in Es. simpl in Es.
    destruct (snd (SpeedSnookerUI.run_timers now u)) as [[|]|];
      [| |reflexivity].
    + destruct (proj1 BS eq_refl). lia.
    + destruct (proj1 BL eq_refl). lia.
Qed.

Lemma beeps_follow_the_shot_clock_witness :
  exists c',
    SpeedSnookerUI.frame (fst (SpeedSnookerUI.run_timers 15 ui_running_530))
    = Some c' /\
    shot_remaining c' = 0 /\
    snd (SpeedSnookerUI.run_timers 15 ui_running_530) = Some Long.
Proof.
  destruct (beeps_follow_the_shot_clock 15 ui_running_530
              (toggle_run 0 (__init__ 330 0)))
    as (c' & F & _ & S & _ & _ & BL & _).
  - exact ui_running_530_reachable.
  - reflexivity.
  - reflexivity.
  - exists c'. split; [exact F|]. split; [rewrite S; reflexivity|].
    apply BL. split; [reflexivity | rewrite S; reflexivity].
Defined.

(** X12. A fob press (scancode 128) that reaches a running controller
    stops it without any beep in that pass of the main loop, whatever shot
    time was left: the shot clock is 0, the frame clock keeps its value. *)
Theorem fob_stop_is_silent (t1 now : Q) (code : Z) (u : SpeedSnookerUI.ui)
    (c : t) :
  ui_reachable u ->
  SpeedSnookerUI.state u = SpeedSnookerUI.FRAME ->
  SpeedSnookerUI.frame u = Some c ->
  running c = true ->
  exists u' c',
    SpeedSnookerUI.run_iteration [(KEYDOWN (K_other code) (Some 128), t1)]
      now u = Ok (u', None) /\
    SpeedSnookerUI.state u' = SpeedSnookerUI.FRAME /\
    SpeedSnookerUI.frame u' = Some c' /\
    running c' = false /\
    shot_remaining c' = 0 /\
    frame_remaining c' = frame_remaining c.
Proof.
  intros H S F R.
  destruct (ui_reachable_invariant u H) as [_ _ _ _ Hc].
  destruct (Hc c F) as (Rc & _).
  destruct (inv_running _ (reachable_invariant c Rc) R) as [Fp _].
  assert (Et : toggle_run t1 c
               = mk (frame_remaining c) 0 false (_last_tick c) 0%Q 0).
  { unfold toggle_run. apply Z.leb_gt in Fp. rewrite Fp, R. reflexivity. }
  unfold SpeedSnookerUI.run_iteration, SpeedSnookerUI.run_events,
    SpeedSnookerUI.handle_event. rewrite S, F, Et.
  set (c1 := mk _ _ _ _ _ _).
  rewrite (run_timers_frame now (SpeedSnookerUI.set_frame c1 u) c1 S eq_refl).
  rewrite (update_paused now c1 eq_refl). simpl.
  eexists _, _. repeat split. exact S.
Qed.

Lemma fob_stop_is_silent_witness :
  exists u' c',
    SpeedSnookerUI.run_iteration [(KEYDOWN (K_other 0) (Some 128), 4%Q)]
      (9 # 2) ui_running_530 = Ok (u', None) /\
    SpeedSnookerUI.state u' = SpeedSnookerUI.FRAME /\
    SpeedSnookerUI.frame u' = Some c' /\
    running c' = false /\
    shot_remaining c' = 0 /\
    frame_remaining c' = frame_remaining (toggle_run 0 (__init__ 330 0)).
Proof.
  apply (fob_stop_is_silent 4 (9 # 2) 0 ui_running_530
           (toggle_run 0 (__init__ 330 0))).
  - exact ui_running_530_reachable.
  - reflexivity.
  - reflexivity.
  - reflexivity.
Defined.

(** X13. In every state the UI can reach, [draw_frame] shows the frame
    clock in exactly five characters and the shot clock in exactly two. *)
Theorem display_keeps_its_width (u : SpeedSnookerUI.ui) :
  ui_reachable u ->
  let v := SpeedSnookerUI.draw_frame u in
  String.length (timer_text v) = 5%nat /\
  String.length (shot_text v) = 2%nat.
Proof.
  intros H. cbv zeta. destruct (ui_reachable_invariant u H) as [_ _ _ _ Hc].
  unfold SpeedSnookerUI.draw_frame. simpl.
  destruct (SpeedSnookerUI.frame u) as [c|] eqn:F; [|repeat split].
  destruct (Hc c eq_refl) as (Rc & _ & Hr).
  pose proof (reachable_invariant c Rc) as I.
  pose proof (inv_shot_nonneg c I) as S0.
  pose proof (inv_shot_max c I) as S1. unfold SHOT_CLOCK_NORMAL_SECONDS in S1.
  rewrite fmt_time_two_digits by lia.
  split; [reflexivity|].
  rewrite format_02d_two_digits by lia. reflexivity.
Qed.

Lemma display_keeps_its_width_witness :
  String.length (timer_text (SpeedSnookerUI.draw_frame ui_running_530))
  = 5%nat /\
  String.length (shot_text (SpeedSnookerUI.draw_frame ui_running_530))
  = 2%nat.
Proof.
  destruct (display_keeps_its_width ui_running_530
              ui_running_530_reachable) as (A & B).
  split; [exact A | exact B].
Defined.

(** X14. The screen drawn after a timer pass agrees with its beep: with a
    short beep the shot clock is drawn in the critical colour, with the long
    beep it reads [00] in the dim colour under the status [PAUSED]; and the
    critical colour is used exactly for shot values 1 to 5. *)
Theorem display_agrees_with_beeps (now : Q) (u : SpeedSnookerUI.ui) (c : t) :
  ui_reachable u ->
  SpeedSnookerUI.state u = SpeedSnookerUI.FRAME ->
  SpeedSnookerUI.frame u = Some c ->
  let v := SpeedSnookerUI.draw_frame (fst (SpeedSnookerUI.run_timers now u)) in
  let b := snd (SpeedSnookerUI.run_timers now u) in
  (b = Some Short -> shot_color v = Some (220, 40, 40)) /\
  (b = Some Long ->
   shot_text v = "00"%string /\ shot_color v = Some (120, 120, 120) /\
   status_text v
   = "PAUSED   |   FOB START/STOP   |   BACKSPACE MENU   |   ESC QUIT"%string) /\
  (shot_color v = Some (220, 40, 40) <->
   1 <= shot_remaining (update now c) <= 5).
Proof.
  intros H S F. cbv zeta.
  destruct (run_timers_beeps now u c H S F)
    as (c' & F' & _ & Es & Er & _ & BL & BS).
  assert (BLr : shot_remaining c' = 0 -> running c' = false).
  { intros Z0. destruct (running c') eqn:R'; [|reflexivity].
    destruct (ui_reachable_invariant _ (ui_timers now u H)) as [_ _ _ _ Hc'].
    destruct (Hc' c' F') as (Rc' & _).
    destruct (inv_running _ (reachable_invariant c' Rc') R'). lia. }
  unfold SpeedSnookerUI.draw_frame. rewrite F'. cbn [shot_color shot_text status_text].
  rewrite <- Es.
  split; [|split].
  - intros B. apply BS in B. destruct B as [_ [B1 B2]].
    apply Z.leb_le in B1, B2. rewrite B1, B2. reflexivity.
  - intros B. apply BL in B. destruct B as [_ B].
    rewrite (BLr B), B. repeat split.
  - destruct (1 <=? shot_remaining c') eqn:E1;
    destruct (shot_remaining c' <=? 5) eqn:E2;
    destruct (0 <? shot_remaining c') eqn:E3; simpl; tests;
    split; try discriminate; try reflexivity; try lia.
Qed.

Lemma display_agrees_with_beeps_witness :
  snd (SpeedSnookerUI.run_timers 10 ui_running_530) = Some Short /\
  shot_color (SpeedSnookerUI.draw_frame
                (fst (SpeedSnookerUI.run_timers 10 ui_running_530)))
  = Some (220, 40, 40).
Proof.
  destruct (display_agrees_with_beeps 10 ui_running_530
              (toggle_run 0 (__init__ 330 0)) ui_running_530_reachable
              eq_refl eq_refl) as (A & _).
  split; [reflexivity | apply A; reflexivity].
Defined.

(** ** The menu layout *)

Lemma nth_error_enumerate_from {A : Type} (l : list A) (s i : nat) :
  nth_error (combine (map Z.of_nat (seq s (List.length l))) l) i
  = option_map (fun x => (Z.of_nat (s + i), x)) (nth_error l i).
Proof.
  revert s i. induction l as [|x l IH]; intros s i.
  - destruct i; reflexivity.
  - destruct i as [|i]; simpl.
    + rewrite Nat.add_0_r. reflexivity.
    + rewrite IH. rewrite Nat.add_succ_r. reflexivity.
Qed.

Lemma nth_error_build_menu_buttons (res : Z * Z)
    (options : list (string * Z)) (i : nat) :
  nth_error (build_menu_buttons res options) i
  = option_map
      (fun o =>
         mkButton (fst o)
           (mkRect ((fst res - 650) / 2)
              ((snd res - (130 * Z.of_nat (List.length options)
                           + 40 * (Z.of_nat (List.length options) - 1))) / 2
               + 80 + Z.of_nat i * (130 + 40))
              650 130)
           (snd o))
      (nth_error options i).
Proof.
  unfold build_menu_buttons, enumerate. destruct res as [w h].
  rewrite nth_error_map, (nth_error_enumerate_from options 0 i).
  destruct (nth_error options i) as [[l s]|]; reflexivity.
Qed.

(** X15. [_build_menu_buttons] makes one button per option, in order,
    with the option's label and seconds; all buttons are 650 by 130 at the
    same x, each 170 below the one before, so that consecutive buttons are
    40 apart and never overlap. *)
Theorem menu_buttons_follow_the_options (res : Z * Z)
    (options : list (string * Z)) (i : nat) (b : Button) :
  nth_error (build_menu_buttons res options) i = Some b ->
  nth_error options i = Some (label b, seconds b) /\
  rect_w (rect b) = 650 /\ rect_h (rect b) = 130 /\
  rect_x (rect b) = (fst res - 650) / 2 /\
  (forall b0, nth_error (build_menu_buttons res options) 0 = Some b0 ->
     rect_y (rect b) = rect_y (rect b0) + Z.of_nat i * (130 + 40)) /\
  (forall b', nth_error (build_menu_buttons res options) (S i) = Some b' ->
     rect_y (rect b') = rect_y (rect b) + rect_h (rect b) + 40) /\
  List.length (build_menu_buttons res options) = List.length options.
Proof.
  intros E. rewrite nth_error_build_menu_buttons in E.
  destruct (nth_error options i) as [[l s]|] eqn:O; [|discriminate].
  injection E as <-.
  cbn [label seconds rect rect_x rect_y rect_w rect_h fst snd].
  split; [reflexivity|]. do 3 (split; [reflexivity|]).
  split; [|split].
  - intros b0 E0. rewrite nth_error_build_menu_buttons in E0.
    destruct (nth_error options 0) as [o|]; [|discriminate].
    injection E0 as <-. simpl. lia.
  - intros b' E'. rewrite nth_error_build_menu_buttons in E'.
    destruct (nth_error options (S i)) as [o|]; [|discriminate].
    injection E' as <-. simpl. lia.
  - apply length_build_menu_buttons.
Qed.

Lemma menu_buttons_follow_the_options_witness :
  exists b,
    nth_error _build_menu_buttons 3 = Some b /\
    nth_error GAME_OPTIONS 3 = Some (label b, seconds b) /\
    rect_w (rect b) = 650.
Proof.
  eexists. split; [reflexivity|].
  destruct (menu_buttons_follow_the_options RESOLUTION GAME_OPTIONS 3 _
              eq_refl) as (A & B & _).
  split; [exact A | exact B].
Defined.

(** X16. On a screen at least 650 wide and at least 160 higher than the
    stack of buttons, every menu button lies inside the screen and is
    centred horizontally (to the pixel). *)
Theorem menu_buttons_on_screen (res : Z * Z) (options : list (string * Z))
    (i : nat) (b : Button) :
  650 <= fst res ->
  130 * Z.of_nat (List.length options)
  + 40 * (Z.of_nat (List.length options) - 1) + 160 <= snd res ->
  nth_error (build_menu_buttons res options) i = Some b ->
  0 <= rect_x (rect b) /\
  rect_x (rect b) + rect_w (rect b) <= fst res /\
  fst res - 1 <= 2 * rect_x (rect b) + rect_w (rect b) /\
  0 <= rect_y (rect b) /\
  rect_y (rect b) + rect_h (rect b) <= snd res.
Proof.
  intros W Hh E. rewrite nth_error_build_menu_buttons in E.
  destruct (nth_error options i) as [o|] eqn:O; [|discriminate].
  assert (Hi : (i < List.length options)%nat)
    by (apply nth_error_Some; congruence).
  pose proof (f_equal (fun x => match x with Some v => v | None => b end) E)
    as Eb.
  cbv beta iota delta [option_map] in Eb. subst b. clear E.
  destruct res as [w h].
  cbv beta iota delta [label seconds rect rect_x rect_y rect_w rect_h fst snd]
    in *.
  set (n := Z.of_nat (List.length options)) in *.
  assert (Hin : Z.of_nat i < n) by (unfold n; lia).
  clearbody n.
  repeat split; Z.to_euclidean_division_equations; lia.
Qed.

Lemma menu_buttons_on_screen_witness :
  Forall (fun b =>
            0 <= rect_x (rect b) /\
            rect_x (rect b) + rect_w (rect b) <= 1920 /\
            0 <= rect_y (rect b) /\
            rect_y (rect b) + rect_h (rect b) <= 1080)
         _build_menu_buttons.
Proof.
  assert (P : forall i b, nth_error _build_menu_buttons i = Some b ->
            0 <= rect_x (rect b) /\
            rect_x (rect b) + rect_w (rect b) <= 1920 /\
            0 <= rect_y (rect b) /\
            rect_y (rect b) + rect_h (rect b) <= 1080).
  { intros i b E.
    destruct (menu_buttons_on_screen RESOLUTION GAME_OPTIONS i b)
      as (A & B & _ & C & D);
      [vm_compute; discriminate | vm_compute; discriminate | exact E |].
    repeat split; assumption. }
  repeat constructor;
    first [ apply (P 0%nat _ eq_refl) | apply (P 1%nat _ eq_refl)
          | apply (P 2%nat _ eq_refl) | apply (P 3%nat _ eq_refl) ].
Defined.

(** ** The beep buffer *)










(** ** Finding the fob *)

Lemma in_fob_candidates (devices : list input_device)
    (c : string * option string) :
  In c (fob_candidates devices) <->
  exists dev, In dev devices /\ dev_opens dev = true /\
              In KEY_VOLUMEUP (dev_keys dev) /\
              c = (dev_path dev, dev_name dev).
Proof.
  unfold fob_candidates. rewrite in_flat_map. split.
  - intros (dev & Hd & Hc).
    destruct (dev_opens dev && existsb (Z.eqb KEY_VOLUMEUP) (dev_keys dev))
      eqn:U; [|destruct Hc].
    destruct Hc as [<- | []]. apply andb_true_iff in U. destruct U as [O K].
    apply existsb_exists in K. destruct K as (k & Hk & Ek).
    apply Z.eqb_eq in Ek. subst k. exists dev. auto.
  - intros (dev & Hd & O & K & ->). exists dev. split; [exact Hd|].
    replace (dev_opens dev && existsb (Z.eqb KEY_VOLUMEUP) (dev_keys dev))
      with true; [left; reflexivity|].
    symmetry. apply andb_true_iff. split; [exact O|].
    apply existsb_exists. exists KEY_VOLUMEUP. split; [exact K|].
    apply Z.eqb_refl.
Qed.

Lemma find_fob_device_path_eq (lower : string -> string)
    (devices : list input_device) :
  _find_fob_device_path lower true devices
  = match fob_candidates devices with
    | [] => None
    | first :: _ =>
        match find (fun c => name_hinted lower (map lower FOB_NAME_HINTS)
                               (snd c))
                (fob_candidates devices) with
        | Some c => Some (fst c)
        | None => Some (fst first)
        end
    end.
Proof.
  unfold _find_fob_device_path.
  destruct (fob_candidates devices); reflexivity.
Qed.

(** X18. [_find_fob_device_path] returns only the path of a listed device
    that opens and advertises [KEY_VOLUMEUP]; it returns [None] exactly
    when [evdev] is missing or there is no such device; and when some such
    device has a name containing one of the hints (case-insensitively), the
    device returned is one of those. *)
Theorem fob_device_is_a_volume_key_device (lower : string -> string)
    (evdev : bool) (devices : list input_device) :
  let hints := map lower FOB_NAME_HINTS in
  let usable dev :=
    In dev devices /\ dev_opens dev = true /\
    In KEY_VOLUMEUP (dev_keys dev) in
  (forall p, _find_fob_device_path lower evdev devices = Some p ->
     exists dev, usable dev /\ dev_path dev = p /\
       ((exists dev', usable dev' /\
           name_hinted lower hints (dev_name dev') = true) ->
        name_hinted lower hints (dev_name dev) = true)) /\
  (_find_fob_device_path lower evdev devices = None <->
   evdev = false \/ forall dev, ~ usable dev).
Proof.
  cbv zeta. destruct evdev;
    [|split; [discriminate | split; [auto | reflexivity]]].
  rewrite find_fob_device_path_eq.
  set (hints := map lower FOB_NAME_HINTS).
  assert (Usable : forall c, In c (fob_candidates devices) ->
            exists dev, (In dev devices /\ dev_opens dev = true /\
                         In KEY_VOLUMEUP (dev_keys dev)) /\
                        dev_path dev = fst c /\ dev_name dev = snd c).
  { intros c Hc. apply in_fob_candidates in Hc.
    destruct Hc as (dev & Hd & O & K & ->). exists dev. auto. }
  assert (Cand : forall dev, In dev devices -> dev_opens dev = true ->
            In KEY_VOLUMEUP (dev_keys dev) ->
            In (dev_path dev, dev_name dev) (fob_candidates devices))
    by (intros dev Hd O K; apply in_fob_candidates; exists dev; auto).
  destruct (fob_candidates devices) as [|first rest] eqn:C.
  - split; [discriminate|]. split; [|reflexivity]. intros _. right.
    intros dev (Hd & O & K). destruct (Cand dev Hd O K).
  - destruct (find (fun c => name_hinted lower hints (snd c))
                (first :: rest)) as [c|] eqn:Fd.
    + split; [|split; [discriminate|]].
      * intros p [= <-]. apply find_some in Fd. destruct Fd as [Hc Hh].
        destruct (Usable c Hc) as (dev & U & P & N).
        exists dev. split; [exact U|]. split; [exact P|].
        intros _. rewrite N. exact Hh.
      * intros [E | N]; [discriminate|]. exfalso.
        destruct (Usable first (or_introl eq_refl)) as (dev & U & _).
        apply (N dev U).
    + split; [|split; [discriminate|]].
      * intros p [= <-].
        destruct (Usable first (or_introl eq_refl)) as (dev & U & P & N).
        exists dev. split; [exact U|]. split; [exact P|].
        intros (dev' & (Hd' & O' & K') & Hh'). exfalso.
        pose proof (find_none _ _ Fd _ (Cand dev' Hd' O' K')) as Nn.
        cbn [snd] in Nn. congruence.
      * intros [E | N]; [discriminate|]. exfalso.
        destruct (Usable first (or_introl eq_refl)) as (dev & U & _).
        apply (N dev U).
Qed.

Lemma fob_device_is_a_volume_key_device_witness :
  let keyboard := mkDevice "/dev/input/event0" true (Some "Keyboard"%string)
                    [113; 114; 115] in
  let fob := mkDevice "/dev/input/event5" true (Some "BT remote"%string)
               [115] in
  _find_fob_device_path (fun s => s) true [keyboard; fob]
  = Some "/dev/input/event5"%string /\
  _find_fob_device_path (fun s => s) true [] = None.
Proof.
  cbv zeta. split; [reflexivity|].
  destruct (fob_device_is_a_volume_key_device (fun s => s) true [])
    as (_ & N).
  apply N. right. intros dev (Hd & _). destruct Hd.
Defined.
